(** * PolyPasswordHasher for Django: the hashing engine of [django_pph/hashers.py]

    A shallow embedding of [PolyPasswordHasher] (encode, verify, the partial
    verification channel, share extraction, the secret fingerprint and the
    recombination step) together with the library functions it calls:
    Python's string operations and base64 codec, and Django's PBKDF2 over
    HMAC-SHA256. *)

From Stdlib Require Import ZArith List Ascii String Bool Lia.
From stdpp Require Import base gmap.
Import ListNotations.
Local Open Scope Z_scope.

(** ** Python byte strings

    The code runs on Python 2, where [str] is a sequence of 8-bit
    characters; text (salts, encoded entries, base64) and binary data
    (digests, shares) have the same type. *)

Definition str := list ascii.

Definition lit (s : string) : str := list_ascii_of_string s.

Definition ord (c : ascii) : Z := Z.of_N (N_of_ascii c).
Definition chr (z : Z) : ascii := ascii_of_N (Z.to_N (z mod 256)).

Definition ascii_eqb (a b : ascii) : bool := Ascii.eqb a b.

(** [len(s)] as a Python integer. *)
Definition len {A} (s : list A) : Z := Z.of_nat (length s).

(** Normalisation of a slice bound: negative bounds count from the end and
    everything is clamped to [0, len(s)]. *)
Definition slice_index {A} (s : list A) (i : Z) : nat :=
  if i <? 0 then Z.to_nat (Z.max 0 (len s + i))
  else Z.to_nat (Z.min i (len s)).

(** [s[i:]] *)
Definition slice_from {A} (s : list A) (i : Z) : list A :=
  skipn (slice_index s i) s.

(** [s[:j]] *)
Definition slice_to {A} (s : list A) (j : Z) : list A :=
  firstn (slice_index s j) s.

(** [c in s] *)
Fixpoint contains (c : ascii) (s : str) : bool :=
  match s with
  | [] => false
  | x :: r => ascii_eqb x c || contains c r
  end.

(** [s.lstrip(c)], [s.rstrip(c)] and [s.strip(c)] for a one-character set. *)
Fixpoint lstrip (c : ascii) (s : str) : str :=
  match s with
  | [] => []
  | x :: r => if ascii_eqb x c then lstrip c r else s
  end.

Definition rstrip (c : ascii) (s : str) : str := rev (lstrip c (rev s)).

Definition strip (c : ascii) (s : str) : str := rstrip c (lstrip c s).

(** [a == b] on strings. *)
Fixpoint str_eqb (a b : str) : bool :=
  match a, b with
  | [], [] => true
  | x :: a', y :: b' => ascii_eqb x y && str_eqb a' b'
  | _, _ => false
  end.

(** [s.startswith(c)] for a one-character prefix. *)
Definition startswith (c : ascii) (s : str) : bool :=
  match s with
  | x :: _ => ascii_eqb x c
  | [] => false
  end.

(** [s.split(sep, maxsplit)]: at most [maxsplit] cuts, from the left. *)
Fixpoint split_at (sep : ascii) (maxsplit : nat) (cur : str) (s : str) : list str :=
  match s with
  | [] => [rev cur]
  | x :: r =>
      match maxsplit with
      | O => [rev cur ++ s]
      | S m =>
          if ascii_eqb x sep then rev cur :: split_at sep m [] r
          else split_at sep maxsplit (x :: cur) r
      end
  end.

Definition split (sep : ascii) (maxsplit : nat) (s : str) : list str :=
  split_at sep maxsplit [] s.

(** [sep.join(parts)] *)
Fixpoint join (sep : str) (parts : list str) : str :=
  match parts with
  | [] => []
  | [p] => p
  | p :: r => p ++ sep ++ join sep r
  end.

(** Decimal rendering of an integer, as [str(n)] and the [%d] and [%s]
    conversions produce it. *)
Definition digit_char (d : Z) : ascii := chr (48 + d).

Fixpoint dec_digits (fuel : nat) (n : Z) (acc : str) : str :=
  match fuel with
  | O => acc
  | S f =>
      if n <? 10 then digit_char n :: acc
      else dec_digits f (n / 10) (digit_char (n mod 10) :: acc)
  end.

Definition dec_nonneg (n : Z) : str := dec_digits (S (Z.to_nat (Z.log2 n))) n [].

Definition decimal (n : Z) : str :=
  if n <? 0 then "-"%char :: dec_nonneg (- n) else dec_nonneg n.

(** [int(s)]: optional surrounding whitespace, an optional sign, and one or
    more decimal digits; anything else raises [ValueError]. *)
Definition is_space (c : ascii) : bool :=
  let n := ord c in
  (n =? 32) || ((9 <=? n) && (n <=? 13)).

Definition digit_value (c : ascii) : option Z :=
  let n := ord c in
  if (48 <=? n) && (n <=? 57) then Some (n - 48) else None.

Definition is_digit (c : ascii) : bool :=
  match digit_value c with Some _ => true | None => false end.

Fixpoint parse_digits (s : str) (acc : Z) : option Z :=
  match s with
  | [] => Some acc
  | c :: r =>
      match digit_value c with
      | Some d => parse_digits r (10 * acc + d)
      | None => None
      end
  end.

Fixpoint lstrip_space (s : str) : str :=
  match s with
  | [] => []
  | x :: r => if is_space x then lstrip_space r else s
  end.

Definition strip_space (s : str) : str := rev (lstrip_space (rev (lstrip_space s))).

Definition py_int (s : str) : option Z :=
  match strip_space s with
  | [] => None
  | c :: r =>
      if ascii_eqb c "-" then
        match r with [] => None | _ => option_map Z.opp (parse_digits r 0) end
      else if ascii_eqb c "+" then
        match r with [] => None | _ => parse_digits r 0 end
      else parse_digits (c :: r) 0
  end.

(** ** Base64 (RFC 4648, standard alphabet with padding)

    [b64encode] is Python's [base64.b64encode]; [b64decode] is
    [base64.b64decode] without validation, that is CPython's
    [binascii.a2b_base64]: characters outside the alphabet are skipped and
    decoding stops at the first padding that closes a quad, whatever
    follows it. *)

Definition b64_alphabet : str :=
  lit "ABCDEFGHIJKLMNOPQRSTUVWXYZabcdefghijklmnopqrstuvwxyz0123456789+/".

Definition table_b2a (i : Z) : ascii := nth (Z.to_nat i) b64_alphabet "="%char.

(** The four 6-bit groups of three bytes. *)
Definition sextet1 (a : Z) : Z := Z.shiftr a 2.
Definition sextet2 (a b : Z) : Z := Z.lor (Z.shiftl (Z.land a 3) 4) (Z.shiftr b 4).
Definition sextet3 (b c : Z) : Z := Z.lor (Z.shiftl (Z.land b 15) 2) (Z.shiftr c 6).
Definition sextet4 (c : Z) : Z := Z.land c 63.

Fixpoint b64encode (s : str) : str :=
  match s with
  | [] => []
  | [a] =>
      [table_b2a (sextet1 (ord a)); table_b2a (sextet2 (ord a) 0);
       "="%char; "="%char]
  | [a; b] =>
      [table_b2a (sextet1 (ord a)); table_b2a (sextet2 (ord a) (ord b));
       table_b2a (sextet3 (ord b) 0); "="%char]
  | a :: b :: c :: r =>
      table_b2a (sextet1 (ord a))
      :: table_b2a (sextet2 (ord a) (ord b))
      :: table_b2a (sextet3 (ord b) (ord c))
      :: table_b2a (sextet4 (ord c))
      :: b64encode r
  end.

(** The decoding table: the value of an alphabet character, [None] for
    every other character.  The padding character is handled before the
    table is consulted. *)
Definition table_a2b (c : ascii) : option Z :=
  let n := ord c in
  if (65 <=? n) && (n <=? 90) then Some (n - 65)
  else if (97 <=? n) && (n <=? 122) then Some (n - 71)
  else if (48 <=? n) && (n <=? 57) then Some (n + 4)
  else if n =? 43 then Some 62
  else if n =? 47 then Some 63
  else None.

Definition b64_pad : ascii := "="%char.

Definition is_Some_b {A} (o : option A) : bool :=
  match o with Some _ => true | None => false end.

(** [binascii_find_valid(s, slen, num)]: the [(num+1)]-th character of [s]
    that belongs to the alphabet or is the padding character. *)
Fixpoint find_valid (s : str) (num : nat) : option ascii :=
  match s with
  | [] => None
  | c :: r =>
      if ascii_eqb c b64_pad || is_Some_b (table_a2b c) then
        match num with
        | O => Some c
        | S n => find_valid r n
        end
      else find_valid r num
  end.

Definition is_pad (o : option ascii) : bool :=
  match o with
  | Some c => ascii_eqb c b64_pad
  | None => false
  end.

(** One alphabet character of value [v] enters the decoder: the position in
    the quad advances, six bits are shifted in, and a byte is emitted once
    eight bits are there. *)
Definition feed (v : Z) (quad_pos leftchar leftbits : Z) : (Z * Z * Z) * option ascii :=
  let quad_pos := Z.land (quad_pos + 1) 3 in
  let leftchar := Z.lor (Z.shiftl leftchar 6) v in
  let leftbits := leftbits + 6 in
  if 8 <=? leftbits then
    let leftbits := leftbits - 8 in
    ((quad_pos, Z.land leftchar (Z.shiftl 1 leftbits - 1), leftbits),
     Some (chr (Z.land (Z.shiftr leftchar leftbits) 255)))
  else ((quad_pos, leftchar, leftbits), None).

(** The decoding loop, with the position in the quad, the bits left over
    from the previous characters and their number.  [None] is the error
    "Incorrect padding". *)
Fixpoint a2b_loop (s : str) (quad_pos leftchar leftbits : Z) : option str :=
  match s with
  | [] => if leftbits =? 0 then Some [] else None
  | c :: r =>
      if (127 <? ord c) || (ord c =? 13) || (ord c =? 10) || (ord c =? 32) then
        a2b_loop r quad_pos leftchar leftbits
      else if ascii_eqb c b64_pad then
        if (quad_pos <? 2) || ((quad_pos =? 2) && negb (is_pad (find_valid s 1)))
        then a2b_loop r quad_pos leftchar leftbits
        else Some []
      else
        match table_a2b c with
        | None => a2b_loop r quad_pos leftchar leftbits
        | Some v =>
            match feed v quad_pos leftchar leftbits with
            | ((quad_pos, leftchar, leftbits), Some byte) =>
                option_map (cons byte) (a2b_loop r quad_pos leftchar leftbits)
            | ((quad_pos, leftchar, leftbits), None) =>
                a2b_loop r quad_pos leftchar leftbits
            end
        end
  end.

Definition b64decode (s : str) : option str := a2b_loop s 0 0 0.

(** Every character is one of the 256 listed: a property checked on all of
    them holds of each. *)
Definition all_ascii : list ascii := map ascii_of_nat (seq 0 256).

(** An alphabet character is read back as its value, and is none of the
    characters the decoder treats specially. *)
Definition reads_back (v : Z) : bool :=
  let c := table_b2a v in
  negb ((127 <? ord c) || (ord c =? 13) || (ord c =? 10) || (ord c =? 32))
  && negb (ascii_eqb c b64_pad)
  && match table_a2b c with
     | Some v' => v' =? v
     | None => false
     end.

(** Boolean equality of decoder steps, for the exhaustive checks below. *)
Definition step_eqb (x y : (Z * Z * Z) * option ascii) : bool :=
  let '((q, c, b), o) := x in
  let '((q', c', b'), o') := y in
  (q =? q') && (c =? c') && (b =? b')
  && match o, o' with
     | Some u, Some u' => ascii_eqb u u'
     | None, None => true
     | _, _ => false
     end.

(** ** SHA-256 (FIPS 180-4), [hashlib.sha256] *)

Module SHA256.

Definition wrap (x : Z) : Z := Z.land x 4294967295.
Definition add (x y : Z) : Z := wrap (x + y).
Definition ROTR (n x : Z) : Z :=
  Z.lor (Z.shiftr x n) (wrap (Z.shiftl x (32 - n))).
Definition SHR (n x : Z) : Z := Z.shiftr x n.
Definition lnot32 (x : Z) : Z := Z.lxor x 4294967295.

Definition Ch (x y z : Z) : Z := Z.lxor (Z.land x y) (Z.land (lnot32 x) z).
Definition Maj (x y z : Z) : Z :=
  Z.lxor (Z.lxor (Z.land x y) (Z.land x z)) (Z.land y z).
Definition Sigma0 (x : Z) : Z := Z.lxor (Z.lxor (ROTR 2 x) (ROTR 13 x)) (ROTR 22 x).
Definition Sigma1 (x : Z) : Z := Z.lxor (Z.lxor (ROTR 6 x) (ROTR 11 x)) (ROTR 25 x).
Definition sigma0 (x : Z) : Z := Z.lxor (Z.lxor (ROTR 7 x) (ROTR 18 x)) (SHR 3 x).
Definition sigma1 (x : Z) : Z := Z.lxor (Z.lxor (ROTR 17 x) (ROTR 19 x)) (SHR 10 x).

(** The sixty-four round constants, in the eight rows of FIPS 180-4,
    section 4.2.2. *)
Definition K : list Z :=
  [0x428a2f98; 0x71374491; 0xb5c0fbcf; 0xe9b5dba5;
      0x3956c25b; 0x59f111f1; 0x923f82a4; 0xab1c5ed5]
  ++ [0xd807aa98; 0x12835b01; 0x243185be; 0x550c7dc3;
      0x72be5d74; 0x80deb1fe; 0x9bdc06a7; 0xc19bf174]
  ++ [0xe49b69c1; 0xefbe4786; 0x0fc19dc6; 0x240ca1cc;
      0x2de92c6f; 0x4a7484aa; 0x5cb0a9dc; 0x76f988da]
  ++ [0x983e5152; 0xa831c66d; 0xb00327c8; 0xbf597fc7;
      0xc6e00bf3; 0xd5a79147; 0x06ca6351; 0x14292967]
  ++ [0x27b70a85; 0x2e1b2138; 0x4d2c6dfc; 0x53380d13;
      0x650a7354; 0x766a0abb; 0x81c2c92e; 0x92722c85]
  ++ [0xa2bfe8a1; 0xa81a664b; 0xc24b8b70; 0xc76c51a3;
      0xd192e819; 0xd6990624; 0xf40e3585; 0x106aa070]
  ++ [0x19a4c116; 0x1e376c08; 0x2748774c; 0x34b0bcb5;
      0x391c0cb3; 0x4ed8aa4a; 0x5b9cca4f; 0x682e6ff3]
  ++ [0x748f82ee; 0x78a5636f; 0x84c87814; 0x8cc70208;
      0x90befffa; 0xa4506ceb; 0xbef9a3f7; 0xc67178f2].

(** The eight working variables, and the hash value between blocks. *)
Record state := mk_state { ha : Z; hb : Z; hc : Z; hd : Z;
                           he : Z; hf : Z; hg : Z; hh : Z }.

Definition H0 : state :=
  mk_state 0x6a09e667 0xbb67ae85 0x3c6ef372 0xa54ff53a
           0x510e527f 0x9b05688c 0x1f83d9ab 0x5be0cd19.

(** One round with round constant [k] and schedule word [w]. *)
Definition round (s : state) (k w : Z) : state :=
  let t1 := add (add (add (add (hh s) (Sigma1 (he s))) (Ch (he s) (hf s) (hg s))) k) w in
  let t2 := add (Sigma0 (ha s)) (Maj (ha s) (hb s) (hc s)) in
  mk_state (add t1 t2) (ha s) (hb s) (hc s) (add (hd s) t1) (he s) (hf s) (hg s).

(** The sixty-four rounds over a sliding window of sixteen schedule
    words: the head is W(t), and W(t+16) is appended as the head is
    consumed. *)
Fixpoint rounds (ks : list Z) (win : list Z) (s : state) : state :=
  match ks with
  | [] => s
  | k :: ks' =>
      let w := nth 0 win 0 in
      let next := add (add (add (sigma1 (nth 14 win 0)) (nth 9 win 0))
                           (sigma0 (nth 1 win 0))) w in
      rounds ks' (tl win ++ [next]) (round s k w)
  end.

Definition compress (h : state) (block : list Z) : state :=
  let s := rounds K block h in
  mk_state (add (ha h) (ha s)) (add (hb h) (hb s)) (add (hc h) (hc s))
           (add (hd h) (hd s)) (add (he h) (he s)) (add (hf h) (hf s))
           (add (hg h) (hg s)) (add (hh h) (hh s)).

(** Big-endian packing of bytes into 32-bit words, and back. *)
Fixpoint words_of_bytes (bs : list Z) : list Z :=
  match bs with
  | a :: b :: c :: d :: r =>
      Z.lor (Z.lor (Z.lor (Z.shiftl a 24) (Z.shiftl b 16)) (Z.shiftl c 8)) d
      :: words_of_bytes r
  | _ => []
  end.

Definition bytes_of_word (w : Z) : list Z :=
  [Z.land (Z.shiftr w 24) 255; Z.land (Z.shiftr w 16) 255;
   Z.land (Z.shiftr w 8) 255; Z.land w 255].

(** Padding: the bit 1, zeros up to 56 modulo 64 bytes, and the length
    in bits on eight bytes. *)
Definition padding (n : Z) : list Z :=
  128 :: repeat 0 (Z.to_nat ((55 - n) mod 64))
  ++ bytes_of_word (Z.shiftr (8 * n) 32) ++ bytes_of_word (wrap (8 * n)).

Fixpoint blocks (fuel : nat) (ws : list Z) (h : state) : state :=
  match fuel with
  | O => h
  | S f =>
      match ws with
      | [] => h
      | _ => blocks f (skipn 16 ws) (compress h (firstn 16 ws))
      end
  end.

Definition digest_bytes (msg : list Z) : list Z :=
  let ws := words_of_bytes (msg ++ padding (len msg)) in
  let h := blocks (length ws) ws H0 in
  flat_map bytes_of_word [ha h; hb h; hc h; hd h; he h; hf h; hg h; hh h].

Definition digest (msg : str) : str :=
  map chr (digest_bytes (map ord msg)).

Definition block_size : Z := 64.
Definition digest_size : Z := 32.

End SHA256.

(** ** Exceptions and results *)

Inductive exn :=
| AssertionError
| ValueError
| TypeError
| KeyError
| NameError
| LockedException
| Exception (msg : string).

Inductive result (A : Type) :=
| Ok (a : A)
| Raise (e : exn).
Arguments Ok {A} a.
Arguments Raise {A} e.

Definition result_bind {A B} (r : result A) (f : A -> result B) : result B :=
  match r with
  | Ok a => f a
  | Raise e => Raise e
  end.

(** ** HMAC-SHA256 and Django's [pbkdf2]

    [django.utils.crypto.pbkdf2(password, salt, iterations, digest=sha256)]
    in its pure Python form (Django 1.5 and 1.6, the versions that have
    both [force_bytes] and [get_cache]): the derived key has the length of
    one digest, so there is a single block [F(1)]. *)

Definition xor_char (a b : ascii) : ascii := chr (Z.lxor (ord a) (ord b)).

Fixpoint xor_str (a b : str) : str :=
  match a, b with
  | x :: a', y :: b' => xor_char x y :: xor_str a' b'
  | _, _ => []
  end.

Definition hmac_key (key : str) : str :=
  let key := if SHA256.block_size <? len key then SHA256.digest key else key in
  key ++ repeat (chr 0) (Z.to_nat (SHA256.block_size - len key)).

Definition hmac_sha256 (key msg : str) : str :=
  let k := hmac_key key in
  let inner := SHA256.digest (map (xor_char (chr 54)) k ++ msg) in
  SHA256.digest (map (xor_char (chr 92)) k ++ inner).

(** [struct.pack('>I', i)] *)
Definition pack_be32 (i : Z) : str := map chr (SHA256.bytes_of_word i).

(** The iteration count reaches [pbkdf2] as an integer from [encode] and
    as the text of the entry's field from [verify]. *)
Inductive iter_arg :=
| IterInt (n : Z)
| IterStr (s : str).

(** [reduce(operator.xor, U())]: [u] is the last block computed, [acc] the
    XOR of the blocks so far, [n] the number of blocks still to add. *)
Fixpoint pbkdf2_U (n : nat) (password u acc : str) : str :=
  match n with
  | O => acc
  | S n' =>
      let u' := hmac_sha256 password u in
      pbkdf2_U n' password u' (xor_str acc u')
  end.

Definition pbkdf2_F (password salt : str) (iterations : Z) : str :=
  let u1 := hmac_sha256 password (salt ++ pack_be32 1) in
  pbkdf2_U (Z.to_nat (iterations - 1)) password u1 u1.

(** [force_bytes(None)] is the text [None]. *)
Definition force_bytes (s : option str) : str :=
  match s with
  | Some s => s
  | None => lit "None"
  end.

Definition pbkdf2 (password : str) (salt : option str) (iterations : iter_arg)
  : result str :=
  match iterations with
  | IterInt n =>
      (* assert iterations > 0 *)
      if n <=? 0 then Raise AssertionError
      else Ok (pbkdf2_F password (force_bytes salt) n)
  | IterStr s =>
      (* a str compares greater than 0; int(iterations) bounds the loop *)
      match py_int s with
      | None => Raise ValueError
      | Some n =>
          if n <=? 0 then Raise TypeError
          else Ok (pbkdf2_F password (force_bytes salt) n)
      end
  end.

(** ** [django_pph.utils] *)

(** Modelled from the spec: [utils.b64enc] is missing from the sources; the
    spec describes it as base64 over the standard alphabet with padding,
    producing text. *)
Definition b64enc (s : str) : str := b64encode s.

(** Modelled from the spec: [utils.bin64enc] is missing from the sources; the
    spec describes it as the same base64 for a binary payload. *)
Definition bin64enc (s : str) : str := b64encode s.

(** Modelled from the spec: [utils.binary_type] is missing from the sources;
    it is the byte-string type, the identity on byte strings. *)
Definition binary_type (s : str) : str := s.

(** Modelled from the spec: [utils.constant_time_compare] is missing from the
    sources; the spec describes it as an equality test in which a length
    mismatch is an inequality. *)
Fixpoint constant_time_compare (a b : str) : bool :=
  match a, b with
  | [], [] => true
  | x :: a', y :: b' => ascii_eqb x y && constant_time_compare a' b'
  | _, _ => false
  end.

(** [utils.do_bytearray_xor] is missing from the sources as well.  The spec
    fixes it on operands of equal length (the byte-wise XOR) and nothing
    else is used about it: it is a parameter of the engine. *)
Class BytearrayXor := {
  do_bytearray_xor : str -> str -> result str;
  do_bytearray_xor_same_length :
    forall a b, length a = length b -> do_bytearray_xor a b = Ok (xor_str a b)
}.

(** ** Collaborators outside the module

    [ShamirSecret] (module [shamirsecret]) and PyCrypto's [AES] are used
    through their methods only; the engine is defined over any
    implementation of them. *)

Class ShamirSecretAPI (shamir : Type) := {
  (** [ShamirSecret(threshold)], an object without secret *)
  ShamirSecret : Z -> shamir;
  (** [obj.compute_share(n)], the pair [(n, y)] *)
  compute_share : shamir -> Z -> result (Z * str);
  (** [obj.recover_secretdata(shares)], the object after the call *)
  recover_secretdata : shamir -> list (Z * str) -> result shamir;
  (** [obj.secretdata] *)
  secretdata : shamir -> option str
}.

Class AESCipher := {
  (** [AES.new(key).encrypt(data)] *)
  AES_encrypt : str -> str -> result str
}.

(** The class attributes of the hasher and the entries of [SETTINGS] it
    reads ([settings.py] is not part of the sources, its values are
    parameters). *)
Record PolyPasswordHasher := {
  iterations : Z;
  threshold : Z;
  partialbytes : Z;
  SECRET_LENGTH : Z;
  SECRET_VERIFICATION_BYTES : Z
}.

Definition algorithm : str := lit "pph".

(** The class as written: [iterations = 12000], [threshold] and
    [partialbytes] read from [SETTINGS]. *)
Definition PolyPasswordHasher_class (THRESHOLD PARTIALBYTES L V : Z) : PolyPasswordHasher :=
  {| iterations := 12000;
     threshold := THRESHOLD;
     partialbytes := PARTIALBYTES;
     SECRET_LENGTH := L;
     SECRET_VERIFICATION_BYTES := V |}.

(** Messages sent to the logger [django.security.PPH]. *)
Inductive log_event :=
| DebugCreatingLocked (passhash : str)
| DebugVerifyingLocked (passhash : str)
| ErrorPartialLeak (original_hash : str)
| ErrorAuditMismatch (original_prefix : str).

(** A record of the ambient user table. *)
Record User := {
  password : str;
  date_joined : Z
}.

(** ** Python sets

    The share numbers seen so far are a Python [set], stored in the cache and
    read back from it.  A set yields its elements in the order of its hash
    table, which is neither the order of insertion nor fixed by the
    language; [_recombine] iterates it.  The engine is defined over any
    such order: a set is the list of its elements as a reader iterates
    them, and adding an element gives some arrangement of the old elements
    and the new one. *)
Class PySet := {
  (** [s.add(n)] *)
  set_add : Z -> list Z -> list Z;
  set_add_present : forall n l, In n l -> Permutation (set_add n l) l;
  set_add_absent : forall n l, ~ In n l -> Permutation (set_add n l) (n :: l)
}.

Section Engine.

Context {shamir : Type} `{ShamirSecretAPI shamir} `{AESCipher} `{BytearrayXor}
        `{PySet}.

(** The dictionary [data]. *)
Record Data := {
  is_unlocked : bool;
  secret : option str;
  nextavailableshare : Z;
  shamirsecretobj : option shamir;
  thresholdlesskey : option str;
  last_unlocked : Z
}.

(** The cache [pph]: the state blob under the key [hasher], candidate
    shares under integer keys, the set under [sharenumbers] (its elements
    in the order in which a reader iterates them) and the dictionary under
    [partial_hashes]. *)
Record Cache := {
  c_hasher : option Data;
  c_shares : gmap Z str;
  c_sharenumbers : option (list Z);
  c_partial_hashes : option (list (str * (Z * str)))
}.

(** Everything the methods read or write.  [self.data] may be the very
    object [self.defaults] (after a [load] that found no blob in the
    cache), in which case a write to one is a write to the other. *)
Record World := {
  data : Data;
  defaults : Data;
  data_is_defaults : bool;
  cache : Cache;
  users : list User;
  log : list log_event;
  clock : Z
}.

(** *** The state and exception monad *)

Definition M (A : Type) : Type := World -> result A * World.

Definition ret {A} (a : A) : M A := fun w => (Ok a, w).
Definition raise {A} (e : exn) : M A := fun w => (Raise e, w).
Definition bind {A B} (m : M A) (f : A -> M B) : M B :=
  fun w => match m w with
           | (Ok a, w') => f a w'
           | (Raise e, w') => (Raise e, w')
           end.
Definition lift {A} (r : result A) : M A := fun w => (r, w).
Definition gets {A} (f : World -> A) : M A := fun w => (Ok (f w), w).
Definition modify (f : World -> World) : M unit := fun w => (Ok tt, f w).

Notation "x <- m ;; k" := (bind m (fun x => k))
  (at level 100, m at next level, right associativity).
Notation "m ;;; k" := (bind m (fun _ => k))
  (at level 100, right associativity).

Definition assert (b : bool) : M unit :=
  if b then ret tt else raise AssertionError.

(** [self.data[...] = ...] *)
Definition set_data (f : Data -> Data) : M unit :=
  modify (fun w =>
    let d := f (data w) in
    {| data := d;
       defaults := if data_is_defaults w then d else defaults w;
       data_is_defaults := data_is_defaults w;
       cache := cache w; users := users w; log := log w; clock := clock w |}).

Definition set_cache (f : Cache -> Cache) : M unit :=
  modify (fun w =>
    {| data := data w; defaults := defaults w;
       data_is_defaults := data_is_defaults w;
       cache := f (cache w); users := users w; log := log w; clock := clock w |}).

Definition logger (e : log_event) : M unit :=
  modify (fun w =>
    {| data := data w; defaults := defaults w;
       data_is_defaults := data_is_defaults w;
       cache := cache w; users := users w; log := log w ++ [e]; clock := clock w |}).

(** [datetime.datetime.utcnow()] *)
Definition utcnow : M Z := gets clock.

(** [self.digest] *)
Definition digest (password : str) (salt : option str) (iterations : iter_arg)
  : result str :=
  pbkdf2 password salt iterations.

(** [self.update()]: no attribute given, the blob is stored. *)
Definition update : M unit :=
  d <- gets data ;;
  set_cache (fun c =>
    {| c_hasher := Some d; c_shares := c_shares c;
       c_sharenumbers := c_sharenumbers c;
       c_partial_hashes := c_partial_hashes c |}).

(** [self.load()] *)
Definition load : M unit :=
  modify (fun w =>
    match c_hasher (cache w) with
    | Some d =>
        {| data := d; defaults := defaults w; data_is_defaults := false;
           cache := cache w; users := users w; log := log w; clock := clock w |}
    | None =>
        {| data := defaults w; defaults := defaults w; data_is_defaults := true;
           cache := cache w; users := users w; log := log w; clock := clock w |}
    end).

(** The first statement of [encode] and [verify]. *)
Definition load_if_locked : M unit :=
  d <- gets data ;;
  if is_unlocked d then ret tt else load.

(** The world [encode] and [verify] work on once that statement has run. *)
Definition entered (w : World) : World :=
  if is_unlocked (data w) then w
  else match c_hasher (cache w) with
       | Some d =>
           {| data := d; defaults := defaults w; data_is_defaults := false;
              cache := cache w; users := users w; log := log w; clock := clock w |}
       | None =>
           {| data := defaults w; defaults := defaults w; data_is_defaults := true;
              cache := cache w; users := users w; log := log w; clock := clock w |}
       end.

Variable self : PolyPasswordHasher.

(** [x[len(x) - self.partialbytes:]] *)
Definition partial_suffix (x : str) : str :=
  slice_from x (len x - partialbytes self).

Definition _polyhash_entry (password salt : str) (sharenumber : Z) : M str :=
  d <- gets data ;;
  match shamirsecretobj d with
  | None => raise AssertionError
  | Some obj =>
      saltedpasswordhash <- lift (digest password (Some salt) (IterInt (iterations self))) ;;
      share <- lift (compute_share obj sharenumber) ;;
      let shamirsecretdata := snd share in
      passhash <- lift (do_bytearray_xor saltedpasswordhash shamirsecretdata) ;;
      let passhash := bin64enc passhash in
      ret (passhash ++ b64enc (partial_suffix saltedpasswordhash))
  end.

Definition _encrypt_entry (password salt : str) : M str :=
  d <- gets data ;;
  match thresholdlesskey d with
  | None => raise AssertionError
  | Some key =>
      saltedpasswordhash <- lift (digest password (Some salt) (IterInt (iterations self))) ;;
      passhash <- lift (AES_encrypt key saltedpasswordhash) ;;
      let passhash := bin64enc passhash in
      ret (passhash ++ b64enc (partial_suffix saltedpasswordhash))
  end.

(** [passhash not in d] and [d[passhash] = v] on a dictionary. *)
Fixpoint dict_mem (k : str) (d : list (str * (Z * str))) : bool :=
  match d with
  | [] => false
  | (k', _) :: r => str_eqb k' k || dict_mem k r
  end.

Definition dict_setdefault (k : str) (v : Z * str) (d : list (str * (Z * str)))
  : list (str * (Z * str)) :=
  if dict_mem k d then d else d ++ [(k, v)].

Definition _partial_verify (password salt passhash : str) (iters : iter_arg)
           (sharenumber : Z) : M bool :=
  h <- lift (digest password (Some salt) iters) ;;
  let saltedpasswordhash := b64enc h in
  let partial_bytes := partial_suffix saltedpasswordhash in
  let original_partial_bytes := partial_suffix passhash in
  let result := constant_time_compare partial_bytes original_partial_bytes in
  (if result then
     set_cache (fun c =>
       let partial_verificated_hashes :=
         match c_partial_hashes c with
         | None => []
         | Some d => d
         end in
       {| c_hasher := c_hasher c; c_shares := c_shares c;
          c_sharenumbers := c_sharenumbers c;
          c_partial_hashes :=
            Some (dict_setdefault passhash (sharenumber, saltedpasswordhash)
                                  partial_verificated_hashes) |})
   else ret tt) ;;;
  ret result.

(** The world after a successful partial verification has been recorded
    under [partial_hashes]. *)
Definition partial_recorded (passhash : str) (sharenumber : Z)
           (saltedpasswordhash : str) (w : World) : World :=
  {| data := data w; defaults := defaults w;
     data_is_defaults := data_is_defaults w;
     cache :=
       {| c_hasher := c_hasher (cache w); c_shares := c_shares (cache w);
          c_sharenumbers := c_sharenumbers (cache w);
          c_partial_hashes :=
            Some (dict_setdefault passhash (sharenumber, saltedpasswordhash)
                    match c_partial_hashes (cache w) with
                    | None => []
                    | Some d => d
                    end) |};
     users := users w; log := log w; clock := clock w |}.

Definition _get_share_from_hash (password salt passhash : str) (iters : iter_arg)
  : result str :=
  let passhash := binary_type passhash in
  result_bind (digest password (Some salt) iters) (fun saltedpasswordhash =>
  match b64decode (slice_to passhash (len passhash - partialbytes self)) with
  | None => Raise TypeError
  | Some byte_passhash => do_bytearray_xor byte_passhash saltedpasswordhash
  end).

Definition verify_secret (secret : str) : result bool :=
  let secret := binary_type secret in
  let secret_length := SECRET_LENGTH self in
  let verification_len := SECRET_VERIFICATION_BYTES self in
  let random_data := slice_to secret (secret_length - verification_len) in
  result_bind (digest random_data None (IterInt 1)) (fun secret_hash =>
  let secret_hash_text := slice_to (b64enc secret_hash) verification_len in
  Ok (constant_time_compare
        (slice_from secret (secret_length - verification_len))
        secret_hash_text)).

Definition update_hash_thresholdless (hash : str) : M str :=
  match b64decode hash with
  | None => raise TypeError
  | Some byte_hash =>
      d <- gets data ;;
      match thresholdlesskey d with
      | None => raise TypeError
      | Some key =>
          passhash <- lift (AES_encrypt key byte_hash) ;;
          ret (bin64enc passhash ++ b64enc (partial_suffix byte_hash))
      end
  end.

(** [update_hash_threshold]: the share number is taken and the counter
    stored before the Shamir object is looked at.  On an engine without
    one, [None.compute_share] raises [AttributeError], a subclass of
    [Exception], rendered here with the message Python gives it. *)
Definition update_hash_threshold (hash : str) : M (str * Z) :=
  match b64decode hash with
  | None => raise TypeError
  | Some byte_hash =>
      d <- gets data ;;
      let sharenumber := nextavailableshare d in
      set_data (fun d =>
        {| is_unlocked := is_unlocked d; secret := secret d;
           nextavailableshare := nextavailableshare d + 1;
           shamirsecretobj := shamirsecretobj d;
           thresholdlesskey := thresholdlesskey d;
           last_unlocked := last_unlocked d |}) ;;;
      update ;;;
      d <- gets data ;;
      match shamirsecretobj d with
      | None =>
          raise (Exception "'NoneType' object has no attribute 'compute_share'")
      | Some obj =>
          share <- lift (compute_share obj sharenumber) ;;
          let shamirsecretdata := snd share in
          passhash <- lift (do_bytearray_xor byte_hash shamirsecretdata) ;;
          ret (bin64enc passhash ++ b64enc (partial_suffix byte_hash), sharenumber)
      end
  end.

(** The body of the loop of [_verify_previous_hashes]. *)
Fixpoint audit_partial_hashes (l : list (str * (Z * str))) : M unit :=
  match l with
  | [] => ret tt
  | (original_hash, (sharenumber, saltedhash)) :: r =>
      (if sharenumber =? 0 then
         match b64decode saltedhash with
         | None => raise TypeError
         | Some byte_hash =>
             d <- gets data ;;
             match thresholdlesskey d with
             | None => raise TypeError
             | Some key =>
                 passhash <- lift (AES_encrypt key byte_hash) ;;
                 let passhash := bin64enc passhash in
                 let hashlen := len passhash in
                 if negb (constant_time_compare passhash
                            (slice_to original_hash hashlen))
                 then logger (ErrorAuditMismatch (slice_to original_hash hashlen))
                 else ret tt
             end
         end
       else ret tt) ;;;
      audit_partial_hashes r
  end.

Definition _verify_previous_hashes : M unit :=
  c <- gets cache ;;
  match c_partial_hashes c with
  | None => ret tt
  | Some partially_verified_hashes =>
      audit_partial_hashes partially_verified_hashes
  end.

(** The body of the loop of [_update_locked_hashes].  The thresholdless
    branch ends in a [str.format] with the unknown field name [s], the
    threshold branch calls the method [update_hash_threshold] as a global
    name: neither reaches [user.save()]. *)
Fixpoint sweep_users (l : list User) : M unit :=
  match l with
  | [] => ret tt
  | user :: r =>
      match split "$" 4 (password user) with
      | [_; sharenumber; _; _; original_hash] =>
          if startswith "-" sharenumber then
            match py_int sharenumber with
            | None => raise ValueError
            | Some sharenumber =>
                if sharenumber =? 0 then
                  update_hash_thresholdless original_hash ;;;
                  raise KeyError
                else raise NameError
            end
          else sweep_users r
      | _ => raise ValueError
      end
  end.

(** The sweep over the users that joined since the last unlock. *)
Definition _update_locked_hashes : M unit :=
  d <- gets data ;;
  all_users <- gets (fun w => filter (fun u => last_unlocked d <=? date_joined u) (users w)) ;;
  assert (is_unlocked d) ;;;
  assert (is_Some_b (thresholdlesskey d)) ;;;
  assert (is_Some_b (secret d)) ;;;
  sweep_users all_users.

(** The list built by the loop of [_recombine]; a share number without
    cached share fails the assertion. *)
Fixpoint recombination_shares (c : Cache) (sharenumbers : list Z)
  : result (list (Z * str)) :=
  match sharenumbers with
  | [] => Ok []
  | share :: r =>
      match c_shares c !! share with
      | None => Raise AssertionError
      | Some share_value =>
          result_bind (recombination_shares c r)
                      (fun rest => Ok ((share, share_value) :: rest))
      end
  end.

Definition _recombine : M unit :=
  c <- gets cache ;;
  match c_sharenumbers c with
  | None => raise AssertionError
  | Some sharenumbers =>
      shares <- lift (recombination_shares c sharenumbers) ;;
      let obj := ShamirSecret (threshold self) in
      set_data (fun d =>
        {| is_unlocked := is_unlocked d; secret := secret d;
           nextavailableshare := nextavailableshare d;
           shamirsecretobj := Some obj;
           thresholdlesskey := thresholdlesskey d;
           last_unlocked := last_unlocked d |}) ;;;
      obj <- lift (recover_secretdata obj shares) ;;
      set_data (fun d =>
        {| is_unlocked := is_unlocked d; secret := secretdata obj;
           nextavailableshare := nextavailableshare d;
           shamirsecretobj := Some obj;
           thresholdlesskey := thresholdlesskey d;
           last_unlocked := last_unlocked d |}) ;;;
      ok <- match secretdata obj with
            | None => raise TypeError
            | Some s => lift (verify_secret s)
            end ;;
      (if negb ok then raise (Exception "Couldn't recombine store!") else ret tt) ;;;
      set_data (fun d =>
        {| is_unlocked := true; secret := secret d;
           nextavailableshare := nextavailableshare d;
           shamirsecretobj := shamirsecretobj d;
           thresholdlesskey := secret d;
           last_unlocked := last_unlocked d |}) ;;;
      _verify_previous_hashes ;;;
      _update_locked_hashes ;;;
      now <- utcnow ;;
      set_data (fun d =>
        {| is_unlocked := is_unlocked d; secret := secret d;
           nextavailableshare := nextavailableshare d;
           shamirsecretobj := shamirsecretobj d;
           thresholdlesskey := thresholdlesskey d;
           last_unlocked := now |}) ;;;
      update
  end.

(** The iteration count [encode] uses. *)
Definition encode_iterations (iters : option Z) : Z :=
  match iters with
  | None => iterations self
  | Some i => i
  end.

(** The share number and the salt [encode] settles on. *)
Definition encode_sharenumber (salt : str) (w : World) : Z :=
  if contains "$" salt then nextavailableshare (data (entered w)) else 0.

Definition encode_salt (salt : str) : str :=
  if contains "$" salt then strip "$" salt else salt.

(** The world after [nextavailableshare += 1] and [update()]. *)
Definition allocated (w : World) : World :=
  let d := {| is_unlocked := is_unlocked (data w); secret := secret (data w);
              nextavailableshare := nextavailableshare (data w) + 1;
              shamirsecretobj := shamirsecretobj (data w);
              thresholdlesskey := thresholdlesskey (data w);
              last_unlocked := last_unlocked (data w) |} in
  {| data := d;
     defaults := if data_is_defaults w then d else defaults w;
     data_is_defaults := data_is_defaults w;
     cache := {| c_hasher := Some d; c_shares := c_shares (cache w);
                 c_sharenumbers := c_sharenumbers (cache w);
                 c_partial_hashes := c_partial_hashes (cache w) |};
     users := users w; log := log w; clock := clock w |}.

(** The entry [algorithm$share$iterations$salt$passhash]. *)
Definition format_entry (share : str) (iters : Z) (salt passhash : str) : str :=
  algorithm ++ lit "$" ++ share ++ lit "$" ++ decimal iters ++ lit "$"
  ++ salt ++ lit "$" ++ passhash.

Definition encode (password salt : str) (iters : option Z) : M str :=
  load_if_locked ;;;
  p <- (if contains "$" salt then
          d <- gets data ;;
          let sharenumber := nextavailableshare d in
          set_data (fun d =>
            {| is_unlocked := is_unlocked d; secret := secret d;
               nextavailableshare := nextavailableshare d + 1;
               shamirsecretobj := shamirsecretobj d;
               thresholdlesskey := thresholdlesskey d;
               last_unlocked := last_unlocked d |}) ;;;
          update ;;;
          ret (sharenumber, strip "$" salt)
        else ret (0, salt)) ;;
  let sharenumber := fst p in
  let salt := snd p in
  let iters := match iters with
               | None => iterations self
               | Some i => i
               end in
  d <- gets data ;;
  if negb (is_unlocked d) || negb (is_Some_b (thresholdlesskey d)) then
    passhash <- lift (digest password (Some salt) (IterInt iters)) ;;
    let passhash := b64enc passhash in
    logger (DebugCreatingLocked passhash) ;;;
    ret (format_entry ("-"%char :: decimal sharenumber) iters salt passhash)
  else
    passhash <- (if sharenumber =? 0 then _encrypt_entry password salt
                 else _polyhash_entry password salt sharenumber) ;;
    ret (format_entry (decimal sharenumber) iters salt passhash).

(** The world after [cache.set(sharenumber, share)] and the update of the
    set [sharenumbers]. *)
Definition share_cached (sharenumber : Z) (share : str) (w : World) : World :=
  {| data := data w; defaults := defaults w;
     data_is_defaults := data_is_defaults w;
     cache :=
       {| c_hasher := c_hasher (cache w);
          c_shares := <[sharenumber := share]> (c_shares (cache w));
          c_sharenumbers :=
            Some (set_add sharenumber
                    match c_sharenumbers (cache w) with
                    | None => []
                    | Some l => l
                    end);
          c_partial_hashes := c_partial_hashes (cache w) |};
     users := users w; log := log w; clock := clock w |}.

(** The set [sharenumbers] as [verify] reads it. *)
Definition seen_sharenumbers (w : World) : list Z :=
  match c_sharenumbers (cache w) with
  | None => []
  | Some l => l
  end.

(** The part of the locked branch of [verify] that handles the candidate
    share of a threshold entry. *)
Definition cache_share (password salt original_hash : str) (iters : iter_arg)
           (sharenumber : Z) : M unit :=
  share <- lift (_get_share_from_hash password salt original_hash iters) ;;
  c <- gets cache ;;
  match c_shares c !! sharenumber with
  | Some value =>
      let original_share := b64enc value in
      let new_share := b64enc share in
      if negb (constant_time_compare original_share new_share)
      then raise (Exception "Cached share does not match the new  share value!")
      else ret tt
  | None =>
      set_cache (fun c =>
        {| c_hasher := c_hasher c;
           c_shares := <[sharenumber := share]> (c_shares c);
           c_sharenumbers := c_sharenumbers c;
           c_partial_hashes := c_partial_hashes c |}) ;;;
      c <- gets cache ;;
      let sharenumbers :=
        match c_sharenumbers c with
        | None => []
        | Some l => l
        end in
      let sharenumbers := set_add sharenumber sharenumbers in
      set_cache (fun c =>
        {| c_hasher := c_hasher c; c_shares := c_shares c;
           c_sharenumbers := Some sharenumbers;
           c_partial_hashes := c_partial_hashes c |}) ;;;
      if threshold self <=? len sharenumbers then _recombine else ret tt
  end.

Definition verify (password encoded : str) : M bool :=
  load_if_locked ;;;
  match split "$" 4 encoded with
  | [algorithm'; sharenumber; iters; salt; original_hash] =>
      assert (str_eqb algorithm' algorithm) ;;;
      if startswith "-" sharenumber then
        passhash <- lift (digest password (Some salt) (IterStr iters)) ;;
        let passhash := b64enc passhash in
        logger (DebugVerifyingLocked passhash) ;;;
        ret (constant_time_compare passhash original_hash)
      else
        match py_int sharenumber with
        | None => raise ValueError
        | Some sharenumber =>
            d <- gets data ;;
            if is_Some_b (secret d) && is_Some_b (thresholdlesskey d) then
              proposed_hash <-
                (if negb (sharenumber =? 0)
                 then _polyhash_entry password salt sharenumber
                 else _encrypt_entry password salt) ;;
              partial_result <- _partial_verify password salt original_hash
                                                (IterStr iters) sharenumber ;;
              let result := constant_time_compare original_hash proposed_hash in
              (if partial_result && negb result
               then logger (ErrorPartialLeak original_hash)
               else ret tt) ;;;
              ret (constant_time_compare original_hash proposed_hash)
            else
              (if negb (sharenumber =? 0)
               then cache_share password salt original_hash (IterStr iters) sharenumber
               else ret tt) ;;;
              if 0 <? partialbytes self
              then _partial_verify password salt original_hash (IterStr iters) sharenumber
              else raise LockedException
        end
  | _ => raise ValueError
  end.

(** [django.contrib.auth.hashers.mask_hash(hash, show=6, char="*")]: the
    first six characters, and one [*] for each of the others. *)
Definition mask_hash (hash : str) : str :=
  slice_to hash 6 ++ repeat "*"%char (length (slice_from hash 6)).

(** [safe_summary]: the rows of the ordered dictionary, in order.  The
    labels go through [ugettext_noop], which returns them as they are. *)
Definition safe_summary (encoded : str) : result (list (str * str)) :=
  match split "$" 4 encoded with
  | [algorithm'; sharenumber; iters; salt; hash] =>
      if str_eqb algorithm' algorithm then
        Ok [(lit "algorithm", algorithm');
            (lit "sharenumber", sharenumber);
            (lit "iterations", iters);
            (lit "salt", mask_hash salt);
            (lit "hash", mask_hash hash)]
      else Raise AssertionError
  | _ => Raise ValueError
  end.

(** [must_update]: the algorithm field is not looked at. *)
Definition must_update (encoded : str) : result bool :=
  match split "$" 4 encoded with
  | [_; _; iters; _; _] =>
      match py_int iters with
      | None => Raise ValueError
      | Some n => Ok (negb (n =? iterations self))
      end
  | _ => Raise ValueError
  end.


(** The engine is unlocked with secret and thresholdless key [sec]. *)
Definition unlocked_with (sec : str) (d : Data) : Prop :=
  is_unlocked d = true /\ secret d = Some sec /\ thresholdlesskey d = Some sec.

(** The world after a sequence of calls to [verify], whatever each of
    them returned or raised. *)
Fixpoint verify_all (attempts : list (str * str)) (w : World) : World :=
  match attempts with
  | [] => w
  | (password, encoded) :: r => verify_all r (snd (verify password encoded w))
  end.





End Engine.

Arguments Data shamir : clear implicits.
Arguments Cache shamir : clear implicits.
Arguments World shamir : clear implicits.

(** ** A rendering of the [shamirsecret] module

    The module is not part of the sources.  The engine above does not
    depend on it; this rendering of the spec's description gives the
    examples below a real secret-sharing scheme to run on. *)

Module GF256.

(** Multiplication by [x] modulo the AES polynomial [0x11b]. *)
Definition xtime (a : Z) : Z :=
  let b := Z.shiftl a 1 in
  if 255 <? b then Z.lxor b 0x11b else b.

(** Modelled from the spec: the exponential table of the generator 3
    ("mul via log/exp tables over a fixed generator"). *)
Fixpoint powers (n : nat) (a : Z) : list Z :=
  match n with
  | O => []
  | S n' => a :: powers n' (Z.lxor (xtime a) a)
  end.

Definition exp_table : list Z := Eval vm_compute in powers 255 1.

Definition exp (i : Z) : Z := nth (Z.to_nat (i mod 255)) exp_table 0.

Fixpoint index_of (a : Z) (l : list Z) (i : Z) : Z :=
  match l with
  | [] => 0
  | x :: r => if x =? a then i else index_of a r (i + 1)
  end.

Definition log (a : Z) : Z := index_of a exp_table 0.

(** Modelled from the spec: "add = XOR". *)
Definition add (a b : Z) : Z := Z.lxor a b.

(** Modelled from the spec: "mul via log/exp tables". *)
Definition mul (a b : Z) : Z :=
  if (a =? 0) || (b =? 0) then 0 else exp (log a + log b).

(** Modelled from the spec: "inverse via exp[255 - log[x]]". *)
Definition inv (a : Z) : Z := exp (255 - log a).

(** Modelled from the spec: "division as mul(a, inv(b))". *)
Definition div (a b : Z) : Z := mul a (inv b).

(** Modelled from the spec: evaluation of [a0 + a1 x + ... + an x^n] by
    Horner's rule. *)
Fixpoint eval (coefs : list Z) (x : Z) : Z :=
  match coefs with
  | [] => 0
  | a :: r => add a (mul x (eval r x))
  end.

(** Polynomials by their coefficients, lowest degree first. *)
Fixpoint poly_add (p q : list Z) : list Z :=
  match p, q with
  | [], _ => q
  | _, [] => p
  | a :: p', b :: q' => add a b :: poly_add p' q'
  end.

Definition poly_scale (c : Z) (p : list Z) : list Z := map (mul c) p.

(** [p * (x + a)] *)
Definition poly_mul_linear (a : Z) (p : list Z) : list Z :=
  poly_add (poly_scale a p) (0 :: p).

(** Modelled from the spec: "Lagrange interpolation at x=0 of points
    (xi, yi) yields y0 = sum of yi * prod over j<>i of xj / (xj + xi)". *)
Definition lagrange_at_zero (points : list (Z * Z)) : Z :=
  fold_right add 0
    (map (fun p =>
            mul (snd p)
                (fold_right mul 1
                   (map (fun q => div (fst q) (add (fst q) (fst p)))
                        (filter (fun q => negb (fst q =? fst p)) points))))
         points).

(** The polynomial fitted through the points. *)
Definition interpolate (points : list (Z * Z)) : list Z :=
  fold_right poly_add []
    (map (fun p =>
            poly_scale (snd p)
              (fold_right
                 (fun q acc =>
                    poly_scale (inv (add (fst p) (fst q)))
                               (poly_mul_linear (fst q) acc))
                 [1]
                 (filter (fun q => negb (fst q =? fst p)) points)))
         points).

End GF256.

Module Shamir.

(** Modelled from the spec: a [ShamirSecret] is a threshold, the secret
    when it is known, and one polynomial per byte of the secret. *)
Record t := {
  sh_threshold : Z;
  sh_secretdata : option str;
  sh_coefficients : list (list Z)
}.

(** Modelled from the spec: construction for recovery, "given threshold t
    but no secret". *)
Definition new (threshold : Z) : t :=
  {| sh_threshold := threshold; sh_secretdata := None; sh_coefficients := [] |}.

(** Modelled from the spec: construction for splitting; the random
    coefficients [c1..c(t-1)] of each byte position are an argument. *)
Definition split (threshold : Z) (secret : str) (randoms : list (list Z)) : t :=
  {| sh_threshold := threshold;
     sh_secretdata := Some secret;
     sh_coefficients :=
       map (fun p => ord (fst p) :: snd p) (combine secret randoms) |}.

(** Modelled from the spec: "compute_share(n) with n in [1,255] returns
    (n, y) where y[k] = p_k(n)". *)
Definition compute_share (obj : t) (n : Z) : result (Z * str) :=
  match sh_secretdata obj with
  | None => Raise ValueError
  | Some _ =>
      if (1 <=? n) && (n <=? 255)
      then Ok (n, map (fun coefs => chr (GF256.eval coefs n)) (sh_coefficients obj))
      else Raise ValueError
  end.

Fixpoint distinct (xs : list Z) : bool :=
  match xs with
  | [] => true
  | x :: r => negb (existsb (Z.eqb x) r) && distinct r
  end.

(** The points of byte position [k]. *)
Definition points_at (shares : list (Z * str)) (k : nat) : list (Z * Z) :=
  map (fun s => (fst s, ord (nth k (snd s) (chr 0)))) shares.

(** Modelled from the spec: "recover_secretdata(shares) accepts a list of
    (xi, yi) with all xi distinct and len(shares) >= t", interpolates at
    0 across the first [t] shares for each byte, and checks every
    remaining share against the fitted polynomial.  Errors: duplicate
    [xi], fewer than [t] shares, mismatch after recovery. *)
Definition recover_secretdata (obj : t) (shares : list (Z * str)) : result t :=
  if negb (distinct (map fst shares)) then Raise ValueError
  else if len shares <? sh_threshold obj then Raise ValueError
  else
    let used := firstn (Z.to_nat (sh_threshold obj)) shares in
    let extra := skipn (Z.to_nat (sh_threshold obj)) shares in
    let positions :=
      seq 0 (match used with
             | [] => O
             | s :: _ => length (snd s)
             end) in
    let secret := map (fun k => chr (GF256.lagrange_at_zero (points_at used k))) positions in
    let coefs := map (fun k => GF256.interpolate (points_at used k)) positions in
    if forallb (fun s =>
                  str_eqb (map (fun c => chr (GF256.eval c (fst s))) coefs) (snd s))
               extra
    then Ok {| sh_threshold := sh_threshold obj;
               sh_secretdata := Some secret;
               sh_coefficients := coefs |}
    else Raise ValueError.

End Shamir.

#[export] Instance shamir_instance : ShamirSecretAPI Shamir.t := {|
  ShamirSecret := Shamir.new;
  compute_share := Shamir.compute_share;
  recover_secretdata := Shamir.recover_secretdata;
  secretdata := Shamir.sh_secretdata
|}.

(** ** Concrete collaborators and worlds for the examples *)

(** Modelled from the spec: a [do_bytearray_xor] that cuts or extends (with
    zero bytes) its second operand to the length of the first, after the
    spec's "truncated/extended to 32 bytes". *)
Definition fit (n : nat) (s : str) : str :=
  firstn n s ++ repeat (chr 0) (n - length s).

Lemma fit_same_length (a b : str) : length a = length b -> fit (length a) b = b.
Proof.
  intros Hl. unfold fit. rewrite Hl, firstn_all, Nat.sub_diag. apply app_nil_r.
Qed.

#[export] Instance xor_instance : BytearrayXor := {|
  do_bytearray_xor a b := Ok (xor_str a (fit (length a) b));
  do_bytearray_xor_same_length a b Hl :=
    f_equal (fun x => Ok (xor_str a x)) (fit_same_length a b Hl)
|}.

(** PyCrypto's AES is outside the model; the examples below never reach
    the cipher, and this instance refuses every call. *)
#[export] Instance aes_refusing : AESCipher := {|
  AES_encrypt _ _ := Raise ValueError
|}.

(** A set order for the examples, that of a CPython 2 set of small
    non-negative integers: no two of them share a slot of the table, each
    sits at its own index, and iteration is in increasing order. *)
Fixpoint insert_sorted (n : Z) (l : list Z) : list Z :=
  match l with
  | [] => [n]
  | x :: r => if n <? x then n :: l else x :: insert_sorted n r
  end.

Definition add_sorted (n : Z) (l : list Z) : list Z :=
  if existsb (Z.eqb n) l then l else insert_sorted n l.

Lemma insert_sorted_perm (n : Z) (l : list Z) : Permutation (insert_sorted n l) (n :: l).
Proof.
  induction l as [|x r IH]; [reflexivity|].
  cbn [insert_sorted]. destruct (n <? x); [reflexivity|].
  rewrite IH. apply perm_swap.
Qed.

Lemma add_sorted_present (n : Z) (l : list Z) : In n l -> Permutation (add_sorted n l) l.
Proof.
  intros Hin. unfold add_sorted.
  destruct (existsb (Z.eqb n) l) eqn:E; [reflexivity|].
  assert (Ht : existsb (Z.eqb n) l = true).
  { apply existsb_exists. exists n. split; [exact Hin|apply Z.eqb_refl]. }
  congruence.
Qed.

Lemma add_sorted_absent (n : Z) (l : list Z) :
  ~ In n l -> Permutation (add_sorted n l) (n :: l).
Proof.
  intros Hn. unfold add_sorted.
  destruct (existsb (Z.eqb n) l) eqn:E; [|apply insert_sorted_perm].
  apply existsb_exists in E as (x & Hx & Heq). apply Z.eqb_eq in Heq. now subst x.
Qed.

#[export] Instance set_instance : PySet := {|
  set_add := add_sorted;
  set_add_present := add_sorted_present;
  set_add_absent := add_sorted_absent
|}.

(** The class attribute [data] and its copy [defaults] when the module is
    imported at time [now]. *)
Definition initial_data {shamir : Type} (now : Z) : Data shamir :=
  {| is_unlocked := false;
     secret := None;
     nextavailableshare := 1;
     shamirsecretobj := None;
     thresholdlesskey := None;
     last_unlocked := now |}.

Definition empty_cache {shamir : Type} : Cache shamir :=
  {| c_hasher := None;
     c_shares := ∅;
     c_sharenumbers := None;
     c_partial_hashes := None |}.

(** A fresh process over an empty cache. *)
Definition initial_world {shamir : Type} (now : Z) (users : list User) : World shamir :=
  {| data := initial_data now;
     defaults := initial_data now;
     data_is_defaults := false;
     cache := empty_cache;
     users := users;
     log := [];
     clock := now |}.

(** A salt "wrapped in dollars", as the spec puts it. *)
Definition wrapped_in_dollars (salt : str) : bool :=
  startswith "$" salt && startswith "$" (rev salt).

(** A hasher for the examples: a threshold of two accounts, two partial
    bytes, a secret of 28 random bytes and 4 verification bytes, and a
    single PBKDF2 iteration (a subclass overriding [iterations], so that the
    examples evaluate quickly). *)
Definition demo_hasher : PolyPasswordHasher :=
  {| iterations := 1; threshold := 2; partialbytes := 2;
     SECRET_LENGTH := 32; SECRET_VERIFICATION_BYTES := 4 |}.

(** The same hasher with the partial verification channel disabled. *)
Definition demo_hasher_nopartial : PolyPasswordHasher :=
  {| iterations := 1; threshold := 2; partialbytes := 0;
     SECRET_LENGTH := 32; SECRET_VERIFICATION_BYTES := 4 |}.

(** A secret with its fingerprint. *)
Definition demo_random : str := lit "0123456789abcdefghijklmnopqr".

Definition demo_secret : str :=
  Eval vm_compute in
    demo_random ++ firstn 4 (b64enc (pbkdf2_F demo_random (lit "None") 1)).

(** The secret split with threshold 2, with fixed coefficients in place of
    random ones. *)
Definition demo_shamir : Shamir.t :=
  Eval vm_compute in
    Shamir.split 2 demo_secret (map (fun k => [Z.of_nat k * 7 + 1]) (seq 0 32)).

Definition demo_share (n : Z) : str :=
  match Shamir.compute_share demo_shamir n with
  | Ok p => snd p
  | Raise _ => []
  end.

(** An unlocked engine holding that secret. *)
Definition demo_unlocked_world : World Shamir.t :=
  {| data := {| is_unlocked := true; secret := Some demo_secret;
                nextavailableshare := 1; shamirsecretobj := Some demo_shamir;
                thresholdlesskey := Some demo_secret; last_unlocked := 0 |};
     defaults := initial_data 0;
     data_is_defaults := false;
     cache := empty_cache; users := []; log := []; clock := 0 |}.

Definition ok_or_empty (r : result str) : str :=
  match r with
  | Ok s => s
  | Raise _ => []
  end.

(** Two threshold accounts created on the unlocked engine, with share
    numbers 1 and 2. *)
Definition demo_stored1 : str :=
  Eval vm_compute in
    ok_or_empty (fst (_polyhash_entry demo_hasher (lit "pw1") (lit "a") 1 demo_unlocked_world)).

Definition demo_stored2 : str :=
  Eval vm_compute in
    ok_or_empty (fst (_polyhash_entry demo_hasher (lit "pw2") (lit "b") 2 demo_unlocked_world)).

Definition demo_entry1 : str := lit "pph$1$1$a$" ++ demo_stored1.
Definition demo_entry2 : str := lit "pph$2$1$b$" ++ demo_stored2.

(** What [ShamirSecret(2)] recovers from the two shares. *)
Definition demo_recovered : Shamir.t :=
  Eval vm_compute in
    match Shamir.recover_secretdata (Shamir.new 2)
            [(1, demo_share 1); (2, demo_share 2)] with
    | Ok obj => obj
    | Raise _ => Shamir.new 2
    end.

(** A locked engine whose cache holds a candidate for share number 1 that
    is not the share of the first account. *)
Definition demo_conflict_world : World Shamir.t :=
  {| data := initial_data 0;
     defaults := initial_data 0;
     data_is_defaults := false;
     cache := {| c_hasher := None;
                 c_shares := {[ 1 := repeat "x"%char 32 ]};
                 c_sharenumbers := Some [1];
                 c_partial_hashes := None |};
     users := []; log := []; clock := 0 |}.

(** A locked engine whose cache holds two candidates that are no shares of
    one secret with a fingerprint. *)
Definition demo_bad_shares_world : World Shamir.t :=
  {| data := initial_data 0;
     defaults := initial_data 0;
     data_is_defaults := false;
     cache := {| c_hasher := None;
                 c_shares := {[ 1 := repeat "x"%char 32; 2 := repeat "y"%char 32 ]};
                 c_sharenumbers := Some [1; 2];
                 c_partial_hashes := None |};
     users := []; log := []; clock := 0 |}.

Definition demo_bad_recovered : Shamir.t :=
  Eval vm_compute in
    match Shamir.recover_secretdata (Shamir.new 2)
            [(1, repeat "x"%char 32); (2, repeat "y"%char 32)] with
    | Ok obj => obj
    | Raise _ => Shamir.new 2
    end.

(** A buffer of 256 bytes laid out as the spec words it: 252 bytes followed
    by the first 4 characters of the base64 text of their SHA-256. *)
Definition sha256_fingerprinted : str :=
  Eval vm_compute in
    let random := repeat "x"%char 252 in
    random ++ firstn 4 (b64encode (SHA256.digest random)).

(** A locked-mode entry for the password [pw] and the salt [salt]. *)
Definition demo_locked_entry : str :=
  Eval vm_compute in
    lit "pph$-0$1$salt$" ++ b64enc (pbkdf2_F (lit "pw") (lit "salt") 1).

(** A hasher with a single partial byte. *)
Definition demo_hasher_onebyte : PolyPasswordHasher :=
  {| iterations := 1; threshold := 2; partialbytes := 1;
     SECRET_LENGTH := 32; SECRET_VERIFICATION_BYTES := 4 |}.

(** A user who joined after the engine was last unlocked, with a
    locked-mode entry. *)
Definition demo_locked_user : User :=
  {| password := demo_locked_entry; date_joined := 1 |}.

(** A locked engine whose cache holds the candidate shares of the two
    accounts, at time 7. *)
Definition demo_shares_world (users : list User) : World Shamir.t :=
  {| data := initial_data 0;
     defaults := initial_data 0;
     data_is_defaults := false;
     cache := {| c_hasher := None;
                 c_shares := {[ 1 := demo_share 1; 2 := demo_share 2 ]};
                 c_sharenumbers := Some [1; 2];
                 c_partial_hashes := None |};
     users := users; log := []; clock := 7 |}.

(** A stand-in for the block cipher, for the examples that need a cipher
    that answers: the key, cut or extended to the length of the data, is
    XORed into it. *)
Definition aes_standin : AESCipher :=
  {| AES_encrypt key data := Ok (xor_str data (fit (length data) key)) |}.

(** An unlocked engine, at time 7, with that user in the table. *)
Definition demo_upgrade_world : World Shamir.t :=
  {| data := {| is_unlocked := true; secret := Some demo_secret;
                nextavailableshare := 1; shamirsecretobj := Some demo_shamir;
                thresholdlesskey := Some demo_secret; last_unlocked := 0 |};
     defaults := initial_data 0;
     data_is_defaults := false;
     cache := empty_cache; users := [demo_locked_user]; log := []; clock := 7 |}.

(** * Properties *)

(** ** Strings *)

Lemma ascii_eqb_eq (a b : ascii) : ascii_eqb a b = true <-> a = b.
Proof. unfold ascii_eqb. apply Ascii.eqb_eq. Qed.

Lemma str_eqb_eq (a b : str) : str_eqb a b = true <-> a = b.
Proof.
  revert b. induction a as [|x a IH]; intros [|y b]; simpl; split; try congruence; auto.
  - intros Hc. apply andb_true_iff in Hc as [Hx Ha].
    apply ascii_eqb_eq in Hx. apply IH in Ha. congruence.
  - intros Heq. injection Heq as -> ->. apply andb_true_iff. split.
    + now apply ascii_eqb_eq.
    + now apply IH.
Qed.

Lemma constant_time_compare_eq (a b : str) :
  constant_time_compare a b = true <-> a = b.
Proof.
  revert b. induction a as [|x a IH]; intros [|y b]; simpl; split; try congruence; auto.
  - intros Hc. apply andb_true_iff in Hc as [Hx Ha].
    apply ascii_eqb_eq in Hx. apply IH in Ha. congruence.
  - intros Heq. injection Heq as -> ->. apply andb_true_iff. split.
    + now apply ascii_eqb_eq.
    + now apply IH.
Qed.

Lemma constant_time_compare_refl (a : str) : constant_time_compare a a = true.
Proof. now apply constant_time_compare_eq. Qed.

Lemma constant_time_compare_neq (a b : str) :
  a <> b -> constant_time_compare a b = false.
Proof.
  intros Hne. destruct (constant_time_compare a b) eqn:E; [|reflexivity].
  apply constant_time_compare_eq in E. contradiction.
Qed.

(** The first field of a split starts with what was accumulated. *)
Lemma split_at_head (sep : ascii) (s : str) :
  forall m cur, exists t, nth 0 (split_at sep m cur s) [] = rev cur ++ t.
Proof.
  induction s as [|x r IH]; intros m cur; simpl.
  - exists []. now rewrite app_nil_r.
  - destruct m as [|m].
    + now exists (x :: r).
    + destruct (ascii_eqb x sep).
      * exists []. simpl. now rewrite app_nil_r.
      * destruct (IH (S m) (x :: cur)) as [t Ht]. exists (x :: t).
        rewrite Ht. simpl. now rewrite <- app_assoc.
Qed.

Lemma share_field_of_locked_entry (tail : str) :
  startswith "-" (nth 1 (split "$" 4 (algorithm ++ lit "$" ++ "-"%char :: tail)) []) = true.
Proof.
  unfold split. cbn [algorithm lit list_ascii_of_string app split_at rev].
  cbn. destruct (split_at_head "$" tail 3 ["-"%char]) as [t Ht].
  cbn in Ht. rewrite Ht. reflexivity.
Qed.

(** ** Base64 *)

(** A property checked on all 256 characters holds of each. *)
Lemma In_all_ascii (c : ascii) : In c all_ascii.
Proof.
  unfold all_ascii. rewrite <- (ascii_nat_embedding c).
  apply in_map, in_seq. pose proof (nat_ascii_bounded c). lia.
Qed.

Lemma ascii_forallb (P : ascii -> bool) :
  forallb P all_ascii = true -> forall c, P c = true.
Proof.
  intros Hall c. rewrite forallb_forall in Hall. apply Hall, In_all_ascii.
Qed.

Lemma ascii_forallb2 (P : ascii -> ascii -> bool) :
  forallb (fun a => forallb (P a) all_ascii) all_ascii = true ->
  forall a b, P a b = true.
Proof.
  intros Hall a b.
  apply (ascii_forallb (P a)), (ascii_forallb (fun a => forallb (P a) all_ascii) Hall).
Qed.

Lemma a2b_loop_alphabet (v : Z) (r : str) (quad_pos leftchar leftbits : Z) :
  reads_back v = true ->
  a2b_loop (table_b2a v :: r) quad_pos leftchar leftbits
  = match feed v quad_pos leftchar leftbits with
    | ((quad_pos, leftchar, leftbits), Some byte) =>
        option_map (cons byte) (a2b_loop r quad_pos leftchar leftbits)
    | ((quad_pos, leftchar, leftbits), None) =>
        a2b_loop r quad_pos leftchar leftbits
    end.
Proof.
  unfold reads_back. intros Hv.
  apply andb_true_iff in Hv as [Hv Htab]. apply andb_true_iff in Hv as [Hsp Hpad].
  apply negb_true_iff in Hsp, Hpad.
  cbn [a2b_loop]. rewrite Hsp, Hpad.
  destruct (table_a2b (table_b2a v)) as [v'|]; [|discriminate].
  apply Z.eqb_eq in Htab. now subst v'.
Qed.

Lemma step_eqb_eq x y : step_eqb x y = true -> x = y.
Proof.
  destruct x as [[[q c] b] o], y as [[[q' c'] b'] o']. unfold step_eqb.
  intros Hs. repeat (apply andb_true_iff in Hs as [Hs ?]).
  apply Z.eqb_eq in Hs. assert (c = c') by now apply Z.eqb_eq.
  assert (b = b') by now apply Z.eqb_eq. subst.
  destruct o, o'; try discriminate; [|reflexivity].
  assert (a = a0) by now apply ascii_eqb_eq. now subst.
Qed.

(** The four steps of a quad, checked on every byte value. *)
Lemma quad_step1 (a : ascii) :
  reads_back (sextet1 (ord a)) = true
  /\ feed (sextet1 (ord a)) 0 0 0 = ((1, sextet1 (ord a), 6), None).
Proof.
  assert (Hall : forallb (fun a =>
            reads_back (sextet1 (ord a))
            && step_eqb (feed (sextet1 (ord a)) 0 0 0) ((1, sextet1 (ord a), 6), None))
            all_ascii = true) by (vm_compute; reflexivity).
  pose proof (ascii_forallb _ Hall a) as Ha. cbv beta in Ha.
  apply andb_true_iff in Ha as [Hr Hf]. split; [exact Hr|now apply step_eqb_eq].
Qed.

Lemma quad_step2 (a b : ascii) :
  reads_back (sextet2 (ord a) (ord b)) = true
  /\ feed (sextet2 (ord a) (ord b)) 1 (sextet1 (ord a)) 6
     = ((2, Z.shiftr (ord b) 4, 4), Some a).
Proof.
  assert (Hall : forallb (fun a => forallb (fun b =>
            reads_back (sextet2 (ord a) (ord b))
            && step_eqb (feed (sextet2 (ord a) (ord b)) 1 (sextet1 (ord a)) 6)
                        ((2, Z.shiftr (ord b) 4, 4), Some a)) all_ascii)
            all_ascii = true) by (vm_compute; reflexivity).
  pose proof (ascii_forallb2 _ Hall a b) as Ha. cbv beta in Ha.
  apply andb_true_iff in Ha as [Hr Hf]. split; [exact Hr|now apply step_eqb_eq].
Qed.

Lemma quad_step3 (b c : ascii) :
  reads_back (sextet3 (ord b) (ord c)) = true
  /\ feed (sextet3 (ord b) (ord c)) 2 (Z.shiftr (ord b) 4) 4
     = ((3, Z.shiftr (ord c) 6, 2), Some b).
Proof.
  assert (Hall : forallb (fun b => forallb (fun c =>
            reads_back (sextet3 (ord b) (ord c))
            && step_eqb (feed (sextet3 (ord b) (ord c)) 2 (Z.shiftr (ord b) 4) 4)
                        ((3, Z.shiftr (ord c) 6, 2), Some b)) all_ascii)
            all_ascii = true) by (vm_compute; reflexivity).
  pose proof (ascii_forallb2 _ Hall b c) as Ha. cbv beta in Ha.
  apply andb_true_iff in Ha as [Hr Hf]. split; [exact Hr|now apply step_eqb_eq].
Qed.

Lemma quad_step4 (c : ascii) :
  reads_back (sextet4 (ord c)) = true
  /\ feed (sextet4 (ord c)) 3 (Z.shiftr (ord c) 6) 2 = ((0, 0, 0), Some c).
Proof.
  assert (Hall : forallb (fun c =>
            reads_back (sextet4 (ord c))
            && step_eqb (feed (sextet4 (ord c)) 3 (Z.shiftr (ord c) 6) 2)
                        ((0, 0, 0), Some c)) all_ascii = true)
    by (vm_compute; reflexivity).
  pose proof (ascii_forallb _ Hall c) as Ha. cbv beta in Ha.
  apply andb_true_iff in Ha as [Hr Hf]. split; [exact Hr|now apply step_eqb_eq].
Qed.

(** The last step of a short final group leaves no bit behind. *)
Lemma quad_step2_last (a : ascii) :
  reads_back (sextet2 (ord a) 0) = true
  /\ feed (sextet2 (ord a) 0) 1 (sextet1 (ord a)) 6 = ((2, 0, 4), Some a).
Proof.
  assert (Hall : forallb (fun a =>
            reads_back (sextet2 (ord a) 0)
            && step_eqb (feed (sextet2 (ord a) 0) 1 (sextet1 (ord a)) 6)
                        ((2, 0, 4), Some a)) all_ascii = true)
    by (vm_compute; reflexivity).
  pose proof (ascii_forallb _ Hall a) as Ha. cbv beta in Ha.
  apply andb_true_iff in Ha as [Hr Hf]. split; [exact Hr|now apply step_eqb_eq].
Qed.

Lemma quad_step3_last (b : ascii) :
  reads_back (sextet3 (ord b) 0) = true
  /\ feed (sextet3 (ord b) 0) 2 (Z.shiftr (ord b) 4) 4 = ((3, 0, 2), Some b).
Proof.
  assert (Hall : forallb (fun b =>
            reads_back (sextet3 (ord b) 0)
            && step_eqb (feed (sextet3 (ord b) 0) 2 (Z.shiftr (ord b) 4) 4)
                        ((3, 0, 2), Some b)) all_ascii = true)
    by (vm_compute; reflexivity).
  pose proof (ascii_forallb _ Hall b) as Ha. cbv beta in Ha.
  apply andb_true_iff in Ha as [Hr Hf]. split; [exact Hr|now apply step_eqb_eq].
Qed.

(** Decoding a full group of three bytes. *)
Lemma a2b_loop_quad (a b c : ascii) (r : str) :
  a2b_loop (table_b2a (sextet1 (ord a)) :: table_b2a (sextet2 (ord a) (ord b))
            :: table_b2a (sextet3 (ord b) (ord c)) :: table_b2a (sextet4 (ord c)) :: r)
           0 0 0
  = option_map (fun out => a :: b :: c :: out) (a2b_loop r 0 0 0).
Proof.
  destruct (quad_step1 a) as [R1 F1], (quad_step2 a b) as [R2 F2],
           (quad_step3 b c) as [R3 F3], (quad_step4 c) as [R4 F4].
  rewrite (a2b_loop_alphabet _ _ _ _ _ R1), F1.
  rewrite (a2b_loop_alphabet _ _ _ _ _ R2), F2.
  rewrite (a2b_loop_alphabet _ _ _ _ _ R3), F3.
  rewrite (a2b_loop_alphabet _ _ _ _ _ R4), F4.
  destruct (a2b_loop r 0 0 0); reflexivity.
Qed.

(** Lists three elements at a time. *)
Lemma list_ind3 {A} (P : list A -> Prop) :
  P [] -> (forall a, P [a]) -> (forall a b, P [a; b]) ->
  (forall a b c r, P r -> P (a :: b :: c :: r)) ->
  forall l, P l.
Proof.
  intros Hnil Hone Htwo Hmore.
  fix IH 1.
  intros [|a [|b [|c r]]];
    [apply Hnil | apply Hone | apply Htwo | apply Hmore, IH].
Qed.

(** Decoding undoes encoding. *)
Lemma b64decode_b64encode (s : str) : b64decode (b64encode s) = Some s.
Proof.
  unfold b64decode. induction s as [| a | a b | a b c r IH] using list_ind3.
  - reflexivity.
  - destruct (quad_step1 a) as [R1 F1], (quad_step2_last a) as [R2 F2].
    cbn [b64encode].
    rewrite (a2b_loop_alphabet _ _ _ _ _ R1), F1.
    rewrite (a2b_loop_alphabet _ _ _ _ _ R2), F2. reflexivity.
  - destruct (quad_step1 a) as [R1 F1], (quad_step2 a b) as [R2 F2],
             (quad_step3_last b) as [R3 F3].
    cbn [b64encode].
    rewrite (a2b_loop_alphabet _ _ _ _ _ R1), F1.
    rewrite (a2b_loop_alphabet _ _ _ _ _ R2), F2.
    rewrite (a2b_loop_alphabet _ _ _ _ _ R3), F3. reflexivity.
  - cbn [b64encode]. now rewrite a2b_loop_quad, IH.
Qed.

(** When the encoding ends with padding, the decoder stops there: whatever
    follows the encoding is not read. *)
Lemma b64decode_b64encode_padded (s junk : str) :
  (length s mod 3 <> 0)%nat ->
  b64decode (b64encode s ++ junk) = Some s.
Proof.
  unfold b64decode. induction s as [| a | a b | a b c r IH] using list_ind3; intros Hl.
  - now elim Hl.
  - destruct (quad_step1 a) as [R1 F1], (quad_step2_last a) as [R2 F2].
    cbn [b64encode app].
    rewrite (a2b_loop_alphabet _ _ _ _ _ R1), F1.
    rewrite (a2b_loop_alphabet _ _ _ _ _ R2), F2. reflexivity.
  - destruct (quad_step1 a) as [R1 F1], (quad_step2 a b) as [R2 F2],
             (quad_step3_last b) as [R3 F3].
    cbn [b64encode app].
    rewrite (a2b_loop_alphabet _ _ _ _ _ R1), F1.
    rewrite (a2b_loop_alphabet _ _ _ _ _ R2), F2.
    rewrite (a2b_loop_alphabet _ _ _ _ _ R3), F3. reflexivity.
  - cbn [b64encode app]. rewrite a2b_loop_quad, IH; [reflexivity|].
    cbn [length] in Hl.
    replace (S (S (S (length r)))) with (length r + 1 * 3)%nat in Hl by lia.
    now rewrite Nat.Div0.mod_add in Hl.
Qed.

Lemma b64encode_injective (s t : str) : b64encode s = b64encode t -> s = t.
Proof.
  intros Heq. apply (f_equal b64decode) in Heq.
  rewrite !b64decode_b64encode in Heq. congruence.
Qed.

Lemma b64encode_length_ge (s : str) : (length s <= length (b64encode s))%nat.
Proof.
  induction s as [| a | a b | a b c r IH] using list_ind3; cbn [b64encode length]; lia.
Qed.

(** ** The engine *)

Arguments digest : simpl never.
Arguments pbkdf2 : simpl never.
Arguments pbkdf2_F : simpl never.
Arguments b64enc : simpl never.
Arguments bin64enc : simpl never.
Arguments b64decode : simpl never.
Arguments decimal : simpl never.
Arguments py_int : simpl never.
Arguments slice_from : simpl never.
Arguments slice_to : simpl never.
Arguments partial_suffix : simpl never.
Arguments strip : simpl never.
Arguments _polyhash_entry : simpl never.
Arguments _encrypt_entry : simpl never.
Arguments _partial_verify : simpl never.
Arguments _get_share_from_hash : simpl never.
Arguments verify_secret : simpl never.
Arguments _recombine : simpl never.
Arguments cache_share : simpl never.
Arguments _verify_previous_hashes : simpl never.
Arguments _update_locked_hashes : simpl never.
Arguments update_hash_thresholdless : simpl never.
Arguments entered : simpl never.
Arguments allocated : simpl never.

Section EngineFacts.

Context {shamir : Type} `{ShamirSecretAPI shamir} `{AESCipher} `{BytearrayXor}
        `{PySet}.
Variable self : PolyPasswordHasher.

Local Abbreviation World := (World shamir).

Lemma load_if_locked_entered (w : World) :
  load_if_locked w = (Ok tt, entered w).
Proof.
  unfold load_if_locked, entered, bind, gets, load, modify, ret.
  destruct (is_unlocked (data w)); [reflexivity|].
  destruct (c_hasher (cache w)); reflexivity.
Qed.

Lemma digest_int_ok (password : str) (salt : option str) (n : Z) :
  0 < n -> digest password salt (IterInt n) = Ok (pbkdf2_F password (force_bytes salt) n).
Proof.
  intros Hn. unfold digest, pbkdf2.
  destruct (Z.leb_spec n 0); [lia|reflexivity].
Qed.

Lemma digest_str_ok (password : str) (salt : option str) (it : str) (n : Z) :
  py_int it = Some n -> 0 < n ->
  digest password salt (IterStr it) = Ok (pbkdf2_F password (force_bytes salt) n).
Proof.
  intros Hit Hn. unfold digest, pbkdf2. rewrite Hit.
  destruct (Z.leb_spec n 0); [lia|reflexivity].
Qed.

Lemma bind_ok {A B} (m : M A) (f : A -> M B) (w w' : World) (a : A) :
  m w = (Ok a, w') -> bind m f w = f a w'.
Proof. unfold bind. now intros ->. Qed.

Lemma bind_raise {A B} (m : M A) (f : A -> M B) (w w' : World) (e : exn) :
  m w = (Raise e, w') -> bind m f w = (Raise e, w').
Proof. unfold bind. now intros ->. Qed.

(** C9: when the engine that [encode] reloads on entry is locked, or its
    thresholdless key is absent, the entry produced is
    [pph$-n$iterations$salt$base64(PBKDF2(password, salt, iterations))]
    and its share field begins with [-], for every password and every
    salt, wrapped in dollars or not. *)
Theorem encode_locked_entry (password salt : str) (iters : option Z) (w : World) :
  is_unlocked (data (entered w)) = false
  \/ thresholdlesskey (data (entered w)) = None ->
  0 < encode_iterations self iters ->
  exists w',
    encode self password salt iters w
    = (Ok (format_entry ("-"%char :: decimal (encode_sharenumber salt w))
                        (encode_iterations self iters) (encode_salt salt)
                        (b64enc (pbkdf2_F password (encode_salt salt)
                                          (encode_iterations self iters)))), w')
    /\ startswith "-"
         (nth 1 (split "$" 4
                   (format_entry ("-"%char :: decimal (encode_sharenumber salt w))
                      (encode_iterations self iters) (encode_salt salt)
                      (b64enc (pbkdf2_F password (encode_salt salt)
                                        (encode_iterations self iters))))) []) = true.
Proof.
  intros Hlocked Hit.
  assert (Hcond : forall d : Data shamir,
             is_unlocked d = is_unlocked (data (entered w)) ->
             thresholdlesskey d = thresholdlesskey (data (entered w)) ->
             negb (is_unlocked d) || negb (is_Some_b (thresholdlesskey d)) = true).
  { intros d -> ->. destruct Hlocked as [-> | ->]; [reflexivity|].
    apply orb_true_r. }
  unfold encode, encode_sharenumber, encode_salt.
  rewrite (bind_ok _ _ _ _ _ (load_if_locked_entered w)).
  fold (encode_iterations self iters).
  destruct (contains "$" salt).
  - eexists. split.
    + unfold bind, gets, set_data, modify, update, set_cache, ret, lift, logger.
      cbn. rewrite Hcond by reflexivity.
      rewrite digest_int_ok by assumption. reflexivity.
    + apply share_field_of_locked_entry.
  - eexists. split.
    + unfold bind, gets, set_data, modify, update, set_cache, ret, lift, logger.
      cbn. rewrite Hcond by reflexivity.
      rewrite digest_int_ok by assumption. reflexivity.
    + apply share_field_of_locked_entry.
Qed.


(** What [verify] does with an entry once it is parsed. *)
Lemma verify_parsed (password encoded sn it salt stored : str) (w : World) :
  split "$" 4 encoded = [algorithm; sn; it; salt; stored] ->
  verify self password encoded w
  = (if startswith "-" sn then
       bind (lift (digest password (Some salt) (IterStr it))) (fun passhash =>
       bind (logger (DebugVerifyingLocked (b64enc passhash))) (fun _ =>
       ret (constant_time_compare (b64enc passhash) stored)))
     else
       match py_int sn with
       | None => raise ValueError
       | Some sharenumber =>
           bind (gets data) (fun d =>
           if is_Some_b (secret d) && is_Some_b (thresholdlesskey d) then
             bind (if negb (sharenumber =? 0)
                   then _polyhash_entry self password salt sharenumber
                   else _encrypt_entry self password salt) (fun proposed_hash =>
             bind (_partial_verify self password salt stored (IterStr it) sharenumber)
                  (fun partial_result =>
             bind (if partial_result
                      && negb (constant_time_compare stored proposed_hash)
                   then logger (ErrorPartialLeak stored)
                   else ret tt) (fun _ =>
             ret (constant_time_compare stored proposed_hash))))
           else
             bind (if negb (sharenumber =? 0)
                   then cache_share self password salt stored (IterStr it) sharenumber
                   else ret tt) (fun _ =>
             if 0 <? partialbytes self
             then _partial_verify self password salt stored (IterStr it) sharenumber
             else raise LockedException))
       end) (entered w).
Proof.
  intros Hsplit. unfold verify.
  rewrite (bind_ok _ _ _ _ _ (load_if_locked_entered w)).
  rewrite Hsplit.
  assert (Halg : str_eqb algorithm algorithm = true) by now apply str_eqb_eq.
  rewrite Halg. reflexivity.
Qed.

(** C8: for an entry whose share field begins with [-], [verify]
    recomputes [base64(PBKDF2(password, salt, iterations))] from the
    entry's own salt and iteration count and returns its comparison with
    the stored field, whatever the state of the engine (the world [w] is
    arbitrary). *)
Theorem verify_locked_mode_entry (password encoded sn it salt stored : str)
        (n : Z) (w : World) :
  split "$" 4 encoded = [algorithm; sn; it; salt; stored] ->
  startswith "-" sn = true ->
  py_int it = Some n ->
  0 < n ->
  exists w',
    verify self password encoded w
    = (Ok (constant_time_compare (b64enc (pbkdf2_F password salt n)) stored), w')
    /\ data w' = data (entered w) /\ cache w' = cache w.
Proof.
  intros Hsplit Hneg Hit Hn.
  rewrite (verify_parsed _ _ _ _ _ _ _ Hsplit), Hneg.
  rewrite (digest_str_ok _ _ _ _ Hit Hn).
  eexists. split; [reflexivity|]. split; [reflexivity|].
  cbn. unfold entered.
  destruct (is_unlocked (data w)); [reflexivity|].
  destruct (c_hasher (cache w)); reflexivity.
Qed.


Lemma _polyhash_entry_world (password salt : str) (n : Z) (w : World) :
  snd (_polyhash_entry self password salt n w) = w.
Proof.
  unfold _polyhash_entry, bind, gets, lift, raise, ret. cbn.
  destruct (shamirsecretobj (data w)); [|reflexivity].
  destruct (digest password (Some salt) (IterInt (iterations self))); [|reflexivity].
  destruct (compute_share _ n); [|reflexivity].
  destruct (do_bytearray_xor _ _); reflexivity.
Qed.

Lemma _encrypt_entry_world (password salt : str) (w : World) :
  snd (_encrypt_entry self password salt w) = w.
Proof.
  unfold _encrypt_entry, bind, gets, lift, raise, ret. cbn.
  destruct (thresholdlesskey (data w)); [|reflexivity].
  destruct (digest password (Some salt) (IterInt (iterations self))); [|reflexivity].
  destruct (AES_encrypt _ _); reflexivity.
Qed.

Lemma entered_cache (w : World) : cache (entered w) = cache w.
Proof.
  unfold entered. destruct (is_unlocked (data w)); [reflexivity|].
  destruct (c_hasher (cache w)); reflexivity.
Qed.

(** [encode], branch by branch. *)
Lemma encode_unfold (password salt : str) (iters : option Z) (w : World) :
  encode self password salt iters w
  = let w2 := if contains "$" salt then allocated (entered w) else entered w in
    let n := encode_sharenumber salt w in
    let salt' := encode_salt salt in
    let it := encode_iterations self iters in
    if negb (is_unlocked (data (entered w)))
       || negb (is_Some_b (thresholdlesskey (data (entered w))))
    then
      match digest password (Some salt') (IterInt it) with
      | Ok h =>
          (Ok (format_entry ("-"%char :: decimal n) it salt' (b64enc h)),
           snd (logger (DebugCreatingLocked (b64enc h)) w2))
      | Raise e => (Raise e, w2)
      end
    else
      match fst ((if n =? 0 then _encrypt_entry self password salt'
                  else _polyhash_entry self password salt' n) w2) with
      | Ok ph => (Ok (format_entry (decimal n) it salt' ph), w2)
      | Raise e => (Raise e, w2)
      end.
Proof.
  unfold encode, encode_sharenumber, encode_salt.
  rewrite (bind_ok _ _ _ _ _ (load_if_locked_entered w)).
  fold (encode_iterations self iters).
  destruct (contains "$" salt).
  - unfold bind, gets, set_data, modify, update, set_cache, ret, lift, logger.
    cbn. fold (allocated (entered w)).
    destruct (negb (is_unlocked (data (entered w)))
              || negb (is_Some_b (thresholdlesskey (data (entered w))))).
    + destruct (digest _ _ _); reflexivity.
    + match goal with |- context [if ?c then ?a else ?b] =>
        set (m := if c then a else b) end.
      assert (Hm : snd (m (allocated (entered w))) = allocated (entered w)) by
        (subst m; destruct (_ =? 0); [apply _encrypt_entry_world|apply _polyhash_entry_world]).
      destruct (m (allocated (entered w))) as [[ph|e] w1]; cbn in Hm |- *; now subst w1.
  - unfold bind, gets, ret, lift, logger, modify. cbn.
    destruct (negb (is_unlocked (data (entered w)))
              || negb (is_Some_b (thresholdlesskey (data (entered w))))).
    + destruct (digest _ _ _); reflexivity.
    + pose proof (_encrypt_entry_world password salt (entered w)) as Hm.
      destruct (_encrypt_entry self password salt (entered w)) as [[ph|e] w1];
        cbn in Hm |- *; now subst w1.
Qed.

(** No base64 text holds a dollar. *)
Lemma table_b2a_no_dollar (i : Z) : ascii_eqb (table_b2a i) "$" = false.
Proof.
  unfold table_b2a.
  destruct (nth_in_or_default (Z.to_nat i) b64_alphabet "="%char) as [Hin| ->];
    [|reflexivity].
  assert (Hall : forallb (fun c => negb (ascii_eqb c "$")) b64_alphabet = true)
    by (vm_compute; reflexivity).
  rewrite forallb_forall in Hall. now apply negb_true_iff, Hall.
Qed.

Lemma b64encode_no_dollar (s : str) : contains "$" (b64encode s) = false.
Proof.
  induction s as [| a | a b | a b c r IH] using list_ind3;
    cbn [b64encode contains]; rewrite ?table_b2a_no_dollar; try reflexivity.
  exact IH.
Qed.

Lemma contains_app (c : ascii) (a b : str) :
  contains c (a ++ b) = contains c a || contains c b.
Proof.
  induction a as [|x a IH]; [reflexivity|].
  cbn [app contains]. now rewrite IH, orb_assoc.
Qed.

(** Neither does the hash of an entry, made of two base64 texts. *)
Lemma entry_hash_no_dollar (password salt ph : str) (n : Z) (w : World) :
  fst ((if n =? 0 then _encrypt_entry self password salt
        else _polyhash_entry self password salt n) w) = Ok ph ->
  contains "$" ph = false.
Proof.
  destruct (n =? 0); intros Hst.
  - unfold _encrypt_entry, bind, gets, lift, ret in Hst.
    destruct (thresholdlesskey (data w)); [|discriminate].
    destruct (digest _ _ _); [|discriminate].
    destruct (AES_encrypt _ _); [|discriminate].
    cbn in Hst. injection Hst as <-.
    unfold bin64enc, b64enc. now rewrite contains_app, !b64encode_no_dollar.
  - unfold _polyhash_entry, bind, gets, lift, ret in Hst.
    destruct (shamirsecretobj (data w)); [|discriminate].
    destruct (digest _ _ _); [|discriminate].
    destruct (compute_share _ _); [|discriminate].
    destruct (do_bytearray_xor _ _); [|discriminate].
    cbn in Hst. injection Hst as <-.
    unfold bin64enc, b64enc. now rewrite contains_app, !b64encode_no_dollar.
Qed.

(** [s.strip(c)] is [s] without the run of [c] at its head and the run
    of [c] at its end. *)
Lemma lstrip_spec (c : ascii) (s : str) :
  (exists i, s = repeat c i ++ lstrip c s) /\ startswith c (lstrip c s) = false.
Proof.
  induction s as [|x r [[i Hi] Hhead]]; [split; [now exists 0%nat|reflexivity]|].
  cbn [lstrip]. destruct (ascii_eqb x c) eqn:E.
  - apply ascii_eqb_eq in E. subst x. split; [|exact Hhead].
    exists (S i). cbn [repeat app]. now rewrite <- Hi.
  - split; [now exists 0%nat|]. cbn. exact E.
Qed.

Lemma strip_spec (c : ascii) (s : str) :
  (exists i j, s = repeat c i ++ strip c s ++ repeat c j)
  /\ startswith c (strip c s) = false
  /\ startswith c (rev (strip c s)) = false.
Proof.
  unfold strip, rstrip.
  destruct (lstrip_spec c s) as [[i Hi] Hhead].
  destruct (lstrip_spec c (rev (lstrip c s))) as [[j Hj] Htail].
  set (t := lstrip c s) in *. set (u := lstrip c (rev t)) in *.
  assert (Ht : t = rev u ++ repeat c j).
  { rewrite <- (rev_involutive t), Hj, rev_app_distr. f_equal.
    clear. induction j as [|j IH]; [reflexivity|].
    cbn [repeat rev]. rewrite IH. clear.
    induction j as [|j IH]; [reflexivity|]. cbn [repeat app]. now rewrite <- IH. }
  split; [|split].
  - exists i, j. now rewrite <- Ht.
  - rewrite Ht in Hhead. destruct (rev u) as [|x r]; [reflexivity|exact Hhead].
  - now rewrite rev_involutive.
Qed.

(** C3, as the code has it: [encode] allocates a share number exactly
    when the salt contains a dollar sign anywhere.  Then the entry carries
    [n = next_share] as read on entry, the counter is incremented and
    stored in the cache, and the dollars at both ends of the salt are
    stripped; a salt without dollar sign gives share number 0 and leaves
    the counter and the stored blob alone.  The hash that ends the entry
    holds no dollar, so the salt field is what stands between the fourth
    dollar of the entry and its last one: the salt without the dollars at
    its head and at its end. *)
Theorem encode_share_allocation (password salt : str) (iters : option Z) (w : World) :
  nextavailableshare (data (snd (encode self password salt iters w)))
  = nextavailableshare (data (entered w)) + (if contains "$" salt then 1 else 0)
  /\ c_hasher (cache (snd (encode self password salt iters w)))
     = (if contains "$" salt
        then Some (data (snd (encode self password salt iters w)))
        else c_hasher (cache w))
  /\ (forall out, fst (encode self password salt iters w) = Ok out ->
        exists sign passhash,
          (sign = [] \/ sign = ["-"%char])
          /\ out = format_entry
                     (sign ++ decimal (if contains "$" salt
                                       then nextavailableshare (data (entered w))
                                       else 0))
                     (encode_iterations self iters)
                     (if contains "$" salt then strip "$" salt else salt)
                     passhash
          /\ contains "$" passhash = false)
  /\ (exists i j : nat,
        salt = repeat "$"%char i ++ strip "$" salt ++ repeat "$"%char j)
  /\ startswith "$" (strip "$" salt) = false
  /\ startswith "$" (rev (strip "$" salt)) = false.
Proof.
  assert (Hfirst :
    nextavailableshare (data (snd (encode self password salt iters w)))
    = nextavailableshare (data (entered w)) + (if contains "$" salt then 1 else 0)
    /\ c_hasher (cache (snd (encode self password salt iters w)))
       = (if contains "$" salt
          then Some (data (snd (encode self password salt iters w)))
          else c_hasher (cache w))
    /\ (forall out, fst (encode self password salt iters w) = Ok out ->
          exists sign passhash,
            (sign = [] \/ sign = ["-"%char])
            /\ out = format_entry
                       (sign ++ decimal (if contains "$" salt
                                         then nextavailableshare (data (entered w))
                                         else 0))
                       (encode_iterations self iters)
                       (if contains "$" salt then strip "$" salt else salt)
                       passhash
            /\ contains "$" passhash = false)).
  { rewrite encode_unfold. unfold encode_sharenumber, encode_salt.
    pose proof (entered_cache w) as Hc.
    destruct (contains "$" salt); cbv zeta.
    - destruct (negb _ || _).
      + destruct (digest _ _ _); unfold allocated; cbn; (split; [lia|]);
          (split; [reflexivity|]); intros out Hout; [|discriminate].
        injection Hout as <-. exists ["-"%char], (b64enc a).
        split; [now right|]. split; [reflexivity|apply b64encode_no_dollar].
      + match goal with |- context [match fst ?m with Ok _ => _ | Raise _ => _ end] =>
          destruct (fst m) as [a|e] eqn:E end;
          unfold allocated; cbn; (split; [lia|]); (split; [reflexivity|]);
          intros out Hout; [|discriminate].
        injection Hout as <-. exists [], a.
        split; [now left|]. split; [reflexivity|].
        exact (entry_hash_no_dollar password (strip "$" salt) a
                 (nextavailableshare (data (entered w))) (allocated (entered w)) E).
    - destruct (negb _ || _).
      + destruct (digest _ _ _); unfold allocated; cbn; (split; [lia|]);
          (split; [exact (f_equal c_hasher Hc)|]); intros out Hout; [|discriminate].
        injection Hout as <-. exists ["-"%char], (b64enc a).
        split; [now right|]. split; [reflexivity|apply b64encode_no_dollar].
      + match goal with |- context [match fst ?m with Ok _ => _ | Raise _ => _ end] =>
          destruct (fst m) as [a|e] eqn:E end;
          unfold allocated; cbn; (split; [lia|]);
          (split; [exact (f_equal c_hasher Hc)|]); intros out Hout; [|discriminate].
        injection Hout as <-. exists [], a.
        split; [now left|]. split; [reflexivity|].
        exact (entry_hash_no_dollar password salt a 0 (entered w) E). }
  destruct Hfirst as (H1' & H2' & H3').
  destruct (strip_spec "$" salt) as (H4' & H5' & H6').
  repeat split; assumption.
Qed.


Lemma entered_log (w : World) : log (entered w) = log w.
Proof.
  unfold entered. destruct (is_unlocked (data w)); [reflexivity|].
  destruct (c_hasher (cache w)); reflexivity.
Qed.

Lemma partial_suffix_disabled (x : str) :
  partialbytes self = 0 -> partial_suffix self x = [].
Proof.
  intros HP. unfold partial_suffix, slice_from, slice_index, len. rewrite HP.
  destruct (Z.ltb_spec (Z.of_nat (length x) - 0) 0); [lia|].
  replace (Z.to_nat _) with (length x) by lia.
  apply skipn_all.
Qed.

Lemma dict_setdefault_mem (k : str) (v : Z * str) (d : list (str * (Z * str))) :
  dict_mem k (dict_setdefault k v d) = true.
Proof.
  unfold dict_setdefault. destruct (dict_mem k d) eqn:E; [exact E|].
  clear E. induction d as [|[k' v'] d IH]; simpl.
  - assert (Hk : str_eqb k k = true) by now apply str_eqb_eq.
    now rewrite Hk.
  - rewrite IH. apply orb_true_r.
Qed.

(** [_partial_verify], branch by branch. *)
Lemma _partial_verify_unfold (password salt passhash : str) (iters : iter_arg)
      (n : Z) (w : World) :
  _partial_verify self password salt passhash iters n w
  = match digest password (Some salt) iters with
    | Raise e => (Raise e, w)
    | Ok h =>
        if constant_time_compare (partial_suffix self (b64enc h))
                                 (partial_suffix self passhash)
        then (Ok true, partial_recorded passhash n (b64enc h) w)
        else (Ok false, w)
    end.
Proof.
  unfold _partial_verify, bind, lift, set_cache, modify, ret.
  destruct (digest _ _ _); [|reflexivity].
  destruct (constant_time_compare _ _); reflexivity.
Qed.

(** C10: with [partialbytes = 0] the two suffixes compared by
    [_partial_verify] are empty, so it answers true for every password and
    every stored hash (whenever the digest can be computed) and records
    the hash under [partial_hashes]; hence on the unlocked path of
    [verify] every failed full comparison is logged as a login "with
    correct partial bytes". *)
Theorem partial_verify_vacuous_when_disabled :
  partialbytes self = 0 ->
  (forall (password salt passhash : str) (iters : iter_arg) (n : Z) (w : World) (h : str),
      digest password (Some salt) iters = Ok h ->
      _partial_verify self password salt passhash iters n w
      = (Ok true, partial_recorded passhash n (b64enc h) w)
      /\ exists d,
          c_partial_hashes (cache (partial_recorded passhash n (b64enc h) w)) = Some d
          /\ dict_mem passhash d = true)
  /\ (forall (password encoded sn it salt stored : str) (n : Z) (w w' : World),
        split "$" 4 encoded = [algorithm; sn; it; salt; stored] ->
        startswith "-" sn = false ->
        py_int sn = Some n ->
        is_Some_b (secret (data (entered w)))
        && is_Some_b (thresholdlesskey (data (entered w))) = true ->
        verify self password encoded w = (Ok false, w') ->
        log w' = log w ++ [ErrorPartialLeak stored]).
Proof.
  intros HP. split.
  - intros password salt passhash iters n w h Hd.
    rewrite _partial_verify_unfold, Hd, !partial_suffix_disabled by assumption.
    split; [reflexivity|].
    eexists. split; [reflexivity|]. apply dict_setdefault_mem.
  - intros password encoded sn it salt stored n w w' Hsplit Hneg Hn Hunl Hv.
    rewrite (verify_parsed _ _ _ _ _ _ _ Hsplit), Hneg, Hn in Hv.
    unfold bind at 1, gets at 1 in Hv. rewrite Hunl in Hv.
    set (m := if negb (n =? 0) then _ else _) in Hv.
    assert (Hm : snd (m (entered w)) = entered w) by
      (subst m; destruct (negb _); [apply _polyhash_entry_world|apply _encrypt_entry_world]).
    unfold bind at 1 in Hv.
    destruct (m (entered w)) as [[proposed|e] w1]; cbn in Hm; subst w1; [|discriminate].
    unfold bind at 1 in Hv. rewrite _partial_verify_unfold in Hv.
    destruct (digest _ _ _) as [h|e]; [|discriminate].
    rewrite !partial_suffix_disabled in Hv by assumption. cbn in Hv.
    unfold bind, logger, modify, ret in Hv.
    destruct (constant_time_compare stored proposed); cbn in Hv; [discriminate|].
    injection Hv as <-. cbn. now rewrite entered_log.
Qed.


(** C7: when the recovery by [ShamirSecret] succeeds and the recovered
    secret fails [verify_secret], [_recombine] raises
    "Couldn't recombine store!" and the engine stays locked: [is_unlocked]
    and the thresholdless key are what they were before the call (false
    and absent), and nothing was written to the cache. *)
Theorem recombine_fingerprint_failure (w : World) (sharenumbers : list Z)
        (shares : list (Z * str)) (obj : shamir) (s : str) :
  c_sharenumbers (cache w) = Some sharenumbers ->
  recombination_shares (cache w) sharenumbers = Ok shares ->
  recover_secretdata (ShamirSecret (threshold self)) shares = Ok obj ->
  secretdata obj = Some s ->
  verify_secret self s = Ok false ->
  exists w',
    _recombine self w = (Raise (Exception "Couldn't recombine store!"), w')
    /\ is_unlocked (data w') = is_unlocked (data w)
    /\ thresholdlesskey (data w') = thresholdlesskey (data w)
    /\ cache w' = cache w.
Proof.
  intros Hset Hshares Hrec Hsec Hfp.
  unfold _recombine, bind, gets, lift, set_data, modify, raise, ret.
  rewrite Hset, Hshares. cbn. rewrite Hrec, Hsec, Hfp. cbn.
  eexists. repeat split.
Qed.

(** [cache_share], branch by branch. *)
Lemma cache_share_unfold (password salt stored : str) (iters : iter_arg)
      (n : Z) (w : World) :
  cache_share self password salt stored iters n w
  = match _get_share_from_hash self password salt stored iters with
    | Raise e => (Raise e, w)
    | Ok share =>
        match c_shares (cache w) !! n with
        | Some value =>
            if constant_time_compare (b64enc value) (b64enc share)
            then (Ok tt, w)
            else (Raise (Exception "Cached share does not match the new  share value!"), w)
        | None =>
            if threshold self <=? len (seen_sharenumbers (share_cached n share w))
            then _recombine self (share_cached n share w)
            else (Ok tt, share_cached n share w)
        end
    end.
Proof.
  unfold cache_share, bind, lift, gets.
  destruct (_get_share_from_hash _ _ _ _ _) as [share|e]; [|reflexivity].
  destruct (c_shares (cache w) !! n) as [value|].
  - destruct (constant_time_compare _ _); reflexivity.
  - unfold set_cache, modify, ret. cbn.
    fold (share_cached n share w).
    unfold seen_sharenumbers. cbn.
    destruct (threshold self <=? _); reflexivity.
Qed.

(** The locked branch of [verify] on a parsed entry. *)
Lemma verify_locked_branch (password encoded sn it salt stored : str) (n : Z) (w : World) :
  split "$" 4 encoded = [algorithm; sn; it; salt; stored] ->
  startswith "-" sn = false ->
  py_int sn = Some n ->
  is_Some_b (secret (data (entered w)))
  && is_Some_b (thresholdlesskey (data (entered w))) = false ->
  verify self password encoded w
  = match (if negb (n =? 0)
           then cache_share self password salt stored (IterStr it) n
           else ret tt) (entered w) with
    | (Ok _, w1) =>
        if 0 <? partialbytes self
        then _partial_verify self password salt stored (IterStr it) n w1
        else (Raise LockedException, w1)
    | (Raise e, w1) => (Raise e, w1)
    end.
Proof.
  intros Hsplit Hneg Hn Hlocked.
  rewrite (verify_parsed _ _ _ _ _ _ _ Hsplit), Hneg, Hn.
  unfold bind at 1, gets at 1. rewrite Hlocked.
  unfold bind.
  destruct ((if negb (n =? 0)
             then cache_share self password salt stored (IterStr it) n
             else ret tt) (entered w)) as [[[]|e] w1];
    [|reflexivity].
  destruct (0 <? partialbytes self); reflexivity.
Qed.

(** C6, as the code has it: on a locked engine and an entry with a
    non-negative share number, once the candidate-share step of a
    threshold entry has completed without raising (it is skipped for
    share number 0), [verify] returns the result of [_partial_verify] if
    [partialbytes > 0] and raises [LockedException] otherwise; an
    exception of the candidate-share step is passed on as it is; with
    partial bytes disabled [verify] never returns a boolean. *)
Theorem verify_locked_outcome (password encoded sn it salt stored : str)
        (n : Z) (w : World) :
  split "$" 4 encoded = [algorithm; sn; it; salt; stored] ->
  startswith "-" sn = false ->
  py_int sn = Some n ->
  0 <= n ->
  is_Some_b (secret (data (entered w)))
  && is_Some_b (thresholdlesskey (data (entered w))) = false ->
  (forall w1,
      (if negb (n =? 0)
       then cache_share self password salt stored (IterStr it) n
       else ret tt) (entered w) = (Ok tt, w1) ->
      verify self password encoded w
      = if 0 <? partialbytes self
        then _partial_verify self password salt stored (IterStr it) n w1
        else (Raise LockedException, w1))
  /\ (forall e w1,
        cache_share self password salt stored (IterStr it) n (entered w) = (Raise e, w1) ->
        n <> 0 ->
        verify self password encoded w = (Raise e, w1))
  /\ (n = 0 ->
      verify self password encoded w
      = if 0 <? partialbytes self
        then _partial_verify self password salt stored (IterStr it) n (entered w)
        else (Raise LockedException, entered w))
  /\ (partialbytes self <= 0 ->
      forall b, fst (verify self password encoded w) <> Ok b).
Proof.
  intros Hsplit Hneg Hn Hnn Hlocked.
  rewrite (verify_locked_branch _ _ _ _ _ _ _ _ Hsplit Hneg Hn Hlocked).
  repeat split.
  - intros w1 ->. reflexivity.
  - intros e w1 Hstep Hn0. apply Z.eqb_neq in Hn0. rewrite Hn0. cbn.
    now rewrite Hstep.
  - intros ->. reflexivity.
  - intros HP b.
    assert (Hoff : (0 <? partialbytes self) = false) by (apply Z.ltb_ge; lia).
    rewrite Hoff.
    destruct ((if negb (n =? 0)
               then cache_share self password salt stored (IterStr it) n
               else ret tt) (entered w)) as [[[]|e] w1];
      cbn; discriminate.
Qed.

(** C5: on a locked engine and a threshold entry whose share number
    already has a cached candidate, the candidate recovered by XOR is
    compared with the cached one.  If they differ, [verify] raises the
    cached-share mismatch and the cache is left as it was, the cached
    value included; if they are identical, the cached shares and the set
    of seen share numbers are unchanged. *)
Theorem verify_cached_share_conflict (password encoded sn it salt stored : str)
        (n : Z) (w : World) (share value : str) :
  split "$" 4 encoded = [algorithm; sn; it; salt; stored] ->
  startswith "-" sn = false ->
  py_int sn = Some n ->
  n <> 0 ->
  is_Some_b (secret (data (entered w)))
  && is_Some_b (thresholdlesskey (data (entered w))) = false ->
  _get_share_from_hash self password salt stored (IterStr it) = Ok share ->
  c_shares (cache w) !! n = Some value ->
  (value <> share ->
   verify self password encoded w
   = (Raise (Exception "Cached share does not match the new  share value!"),
      entered w)
   /\ cache (entered w) = cache w)
  /\ (value = share ->
      c_shares (cache (snd (verify self password encoded w))) = c_shares (cache w)
      /\ c_sharenumbers (cache (snd (verify self password encoded w)))
         = c_sharenumbers (cache w)).
Proof.
  intros Hsplit Hneg Hn Hn0 Hlocked Hshare Hcached.
  rewrite (verify_locked_branch _ _ _ _ _ _ _ _ Hsplit Hneg Hn Hlocked).
  apply Z.eqb_neq in Hn0. rewrite Hn0. cbn [negb].
  rewrite cache_share_unfold, Hshare, entered_cache, Hcached.
  split.
  - intros Hne. rewrite constant_time_compare_neq.
    + split; reflexivity.
    + unfold b64enc. intros Heq. apply b64encode_injective in Heq. contradiction.
  - intros ->. rewrite constant_time_compare_refl.
    pose proof (entered_cache w) as Hc.
    destruct (0 <? partialbytes self); cbn; [|now rewrite Hc].
    rewrite _partial_verify_unfold.
    destruct (digest _ _ _); cbn; [|now rewrite Hc].
    destruct (constant_time_compare _ _); cbn; now rewrite Hc.
Qed.


Lemma ord_chr (c : ascii) : chr (ord c) = c.
Proof.
  unfold chr, ord. pose proof (N_ascii_bounded c) as Hb.
  rewrite Z.mod_small by lia. rewrite N2Z.id. apply ascii_N_embedding.
Qed.

Lemma xor_char_cancel (a b : ascii) : xor_char (xor_char a b) a = b.
Proof.
  assert (Hall : forallb (fun a => forallb (fun b =>
            ascii_eqb (xor_char (xor_char a b) a) b) all_ascii) all_ascii = true)
    by (vm_compute; reflexivity).
  apply ascii_eqb_eq, (ascii_forallb2 _ Hall).
Qed.

Lemma xor_str_cancel (h y : str) :
  length h = length y -> xor_str (xor_str h y) h = y.
Proof.
  revert y. induction h as [|a h IH]; intros [|b y] Hl; try discriminate; [reflexivity|].
  simpl. rewrite xor_char_cancel, IH; [reflexivity|]. simpl in Hl. lia.
Qed.

Lemma xor_str_length (a b : str) :
  length a = length b -> length (xor_str a b) = length a.
Proof.
  revert b. induction a as [|x a IH]; intros [|y b] Hl; try discriminate; [reflexivity|].
  simpl in *. rewrite IH; lia.
Qed.

Lemma sha256_digest_length (m : str) : length (SHA256.digest m) = 32%nat.
Proof. unfold SHA256.digest, SHA256.digest_bytes. rewrite length_map. reflexivity. Qed.

Lemma hmac_sha256_length (key msg : str) : length (hmac_sha256 key msg) = 32%nat.
Proof. apply sha256_digest_length. Qed.

Lemma pbkdf2_U_length (n : nat) (password u acc : str) :
  length acc = 32%nat -> length (pbkdf2_U n password u acc) = 32%nat.
Proof.
  revert u acc. induction n as [|n IH]; intros u acc Hacc; simpl; [exact Hacc|].
  apply IH. rewrite xor_str_length; [exact Hacc|].
  now rewrite hmac_sha256_length.
Qed.

Lemma pbkdf2_F_length (password salt : str) (n : Z) :
  length (pbkdf2_F password salt n) = 32%nat.
Proof. unfold pbkdf2_F. apply pbkdf2_U_length, hmac_sha256_length. Qed.

Lemma digest_ok_inv (password : str) (salt : option str) (iters : iter_arg) (h : str) :
  digest password salt iters = Ok h ->
  exists n, 0 < n /\ h = pbkdf2_F password (force_bytes salt) n
            /\ match iters with
               | IterInt i => i = n
               | IterStr s => py_int s = Some n
               end.
Proof.
  unfold digest, pbkdf2. destruct iters as [i|s].
  - destruct (Z.leb_spec i 0); [discriminate|]. intros [= <-]. eauto.
  - destruct (py_int s) as [n|]; [|discriminate].
    destruct (Z.leb_spec n 0); [discriminate|]. intros [= <-]. eauto.
Qed.

(** What [_get_share_from_hash] reads: the stored hash without its last
    [partialbytes] characters still begins with the whole encoding of
    the masked bytes. *)
Lemma stored_prefix (x64 s64 : str) :
  partialbytes self <= len s64 ->
  exists junk,
    slice_to (x64 ++ s64) (len (x64 ++ s64) - partialbytes self) = x64 ++ junk.
Proof.
  intros HP. unfold slice_to, slice_index, len in *. rewrite length_app in *.
  destruct (Z.ltb_spec (Z.of_nat (length x64 + length s64) - partialbytes self) 0); [lia|].
  set (k := Z.to_nat _).
  assert (Hk : (length x64 <= k)%nat) by (subst k; lia).
  exists (firstn (k - length x64) s64).
  rewrite firstn_app. f_equal. now apply firstn_all2.
Qed.

Lemma partial_suffix_length (h : str) :
  partialbytes self <= len h ->
  partialbytes self <= len (partial_suffix self h).
Proof.
  intros HP. unfold partial_suffix, slice_from, slice_index, len in *.
  destruct (Z.ltb_spec (Z.of_nat (length h) - partialbytes self) 0); [lia|].
  rewrite length_skipn. lia.
Qed.

(** Unmasking undoes masking: the share is read back from an entry made
    by [_polyhash_entry]. *)
Lemma get_share_of_polyhash (password salt stored : str) (n m : Z)
        (obj : shamir) (y : str) (iters : iter_arg) (w : World) :
  shamirsecretobj (data w) = Some obj ->
  fst (_polyhash_entry self password salt n w) = Ok stored ->
  compute_share obj n = Ok (m, y) ->
  length y = 32%nat ->
  partialbytes self <= 32 ->
  match iters with
  | IterInt i => i = iterations self
  | IterStr s => py_int s = Some (iterations self)
  end ->
  _get_share_from_hash self password salt stored iters = Ok y.
Proof.
  intros Hobj Hstored Hshare Hy HP Hit.
  unfold _polyhash_entry, bind, gets, lift, ret in Hstored.
  rewrite Hobj in Hstored.
  destruct (digest password (Some salt) (IterInt (iterations self))) as [h|e] eqn:Hd;
    [|discriminate].
  rewrite Hshare in Hstored. cbn [snd] in Hstored.
  destruct (digest_ok_inv _ _ _ _ Hd) as (i & Hi & Hh & <-).
  assert (Hlen : length h = 32%nat) by (subst h; apply pbkdf2_F_length).
  rewrite do_bytearray_xor_same_length in Hstored by congruence.
  cbn in Hstored. injection Hstored as <-.
  unfold _get_share_from_hash, binary_type.
  assert (Hd' : digest password (Some salt) iters = Ok h).
  { destruct iters as [j|s].
    - now subst j.
    - rewrite (digest_str_ok _ _ _ _ Hit Hi). now subst h. }
  rewrite Hd'. unfold result_bind.
  assert (HPs : partialbytes self <= len (b64enc (partial_suffix self h))).
  { unfold len, b64enc.
    pose proof (b64encode_length_ge (partial_suffix self h)).
    assert (partialbytes self <= len h) by (unfold len; lia).
    pose proof (partial_suffix_length h ltac:(assumption)). unfold len in *. lia. }
  destruct (stored_prefix (bin64enc (xor_str h y)) _ HPs) as [junk ->].
  unfold bin64enc. rewrite b64decode_b64encode_padded.
  - rewrite do_bytearray_xor_same_length.
    + now rewrite xor_str_cancel by congruence.
    + rewrite xor_str_length; congruence.
  - rewrite xor_str_length by congruence. now rewrite Hlen.
Qed.

(** C4: for an entry produced by [_polyhash_entry] with share number [n]
    (the engine being unlocked, with Shamir object [obj]),
    [_get_share_from_hash] with the same password, the same salt and the
    hasher's iteration count, given as an integer or as the text of the
    entry, returns the share bytes [obj.compute_share(n)[1]]: decoding the
    stored hash without its last [partialbytes] characters and XORing
    with the PBKDF2 digest undoes the masking.  The share has the length
    of the digest, 32 bytes, and [partialbytes] does not exceed it. *)
Theorem share_recovered_from_polyhash (password salt stored : str) (n m : Z)
        (obj : shamir) (y : str) (iters : iter_arg) (w : World) :
  shamirsecretobj (data w) = Some obj ->
  fst (_polyhash_entry self password salt n w) = Ok stored ->
  compute_share obj n = Ok (m, y) ->
  length y = 32%nat ->
  partialbytes self <= 32 ->
  match iters with
  | IterInt i => i = iterations self
  | IterStr s => py_int s = Some (iterations self)
  end ->
  _get_share_from_hash self password salt stored iters = Ok y.
Proof. apply get_share_of_polyhash. Qed.


Lemma firstn_clamped {A} (n : Z) (l : list A) :
  firstn (Z.to_nat (Z.min n (len l))) l = firstn (Z.to_nat n) l.
Proof.
  unfold len. destruct (Z.le_ge_cases n (Z.of_nat (length l))).
  - now rewrite Z.min_l.
  - rewrite Z.min_r, Nat2Z.id, firstn_all by assumption.
    symmetry. apply firstn_all2. lia.
Qed.

(** [verify_secret] on a buffer of the configured length. *)
Lemma verify_secret_unfold (s : str) :
  len s = SECRET_LENGTH self ->
  0 <= SECRET_VERIFICATION_BYTES self <= SECRET_LENGTH self ->
  verify_secret self s
  = Ok (constant_time_compare
          (skipn (Z.to_nat (SECRET_LENGTH self - SECRET_VERIFICATION_BYTES self)) s)
          (firstn (Z.to_nat (SECRET_VERIFICATION_BYTES self))
             (b64enc (pbkdf2_F
                        (firstn (Z.to_nat (SECRET_LENGTH self
                                           - SECRET_VERIFICATION_BYTES self)) s)
                        (lit "None") 1)))).
Proof.
  intros Hlen HV. unfold verify_secret, binary_type.
  rewrite digest_int_ok by lia. unfold result_bind, force_bytes.
  unfold slice_to, slice_from, slice_index.
  destruct (Z.ltb_spec (SECRET_LENGTH self - SECRET_VERIFICATION_BYTES self) 0); [lia|].
  destruct (Z.ltb_spec (SECRET_VERIFICATION_BYTES self) 0); [lia|].
  rewrite !firstn_clamped. now rewrite Z.min_l by lia.
Qed.

(** C2, as the code has it: on a buffer of [SECRET_LENGTH] bytes,
    [verify_secret] answers true exactly when the last
    [SECRET_VERIFICATION_BYTES] bytes are the first characters of the
    base64 text of the one-iteration PBKDF2-HMAC-SHA256 of the bytes before
    them, with the salt [None] that [digest] is given (an HMAC keyed with
    those bytes, not their plain SHA-256); it always answers; and on a
    buffer it accepts, changing any one of the trailing bytes makes it
    answer false. *)
Theorem verify_secret_fingerprint (s : list ascii) :
  len s = SECRET_LENGTH self ->
  0 <= SECRET_VERIFICATION_BYTES self <= SECRET_LENGTH self ->
  let k := Z.to_nat (SECRET_LENGTH self - SECRET_VERIFICATION_BYTES self) in
  let v := Z.to_nat (SECRET_VERIFICATION_BYTES self) in
  (verify_secret self s = Ok true
   <-> skipn k s = firstn v (b64enc (pbkdf2_F (firstn k s) (lit "None") 1)))
  /\ (exists b, verify_secret self s = Ok b)
  /\ (forall (i : nat) (c : ascii),
        (i < v)%nat ->
        s !! (k + i)%nat <> Some c ->
        verify_secret self s = Ok true ->
        verify_secret self (<[(k + i)%nat := c]> s) = Ok false).
Proof.
  intros Hlen HV k v.
  rewrite (verify_secret_unfold s Hlen HV). fold k v.
  split; [|split].
  - split.
    + intros [= Hc]. now apply constant_time_compare_eq.
    + intros Heq. f_equal. now apply constant_time_compare_eq.
  - eauto.
  - intros i c Hi Hne [= Hc]. apply constant_time_compare_eq in Hc.
    assert (Hlen' : len (<[(k + i)%nat := c]> s) = SECRET_LENGTH self)
      by (rewrite <- Hlen; unfold len; f_equal; apply length_insert).
    rewrite (verify_secret_unfold _ Hlen' HV). fold k v.
    rewrite take_insert_ge by lia. rewrite drop_insert_ge by lia.
    replace (k + i - k)%nat with i by lia.
    f_equal. apply constant_time_compare_neq.
    intros Heq.
    assert (Hsame : <[i:=c]> (skipn k s) = skipn k s)
      by (rewrite Heq, Hc; reflexivity).
    assert (Hin : (i < length (skipn k s))%nat).
    { rewrite length_skipn. unfold len in Hlen. subst k v. lia. }
    pose proof (list_lookup_insert_eq (skipn k s) i c Hin) as Hl.
    rewrite Hsame in Hl. rewrite lookup_drop in Hl. contradiction.
Qed.


(** *** The unlock threshold *)







Lemma update_hash_thresholdless_world (hash : str) (w : World) :
  snd (update_hash_thresholdless self hash w) = w.
Proof.
  unfold update_hash_thresholdless, bind, gets, lift, ret, raise.
  destruct (b64decode hash); [|reflexivity].
  destruct (thresholdlesskey (data w)); [|reflexivity].
  destruct (AES_encrypt _ _); reflexivity.
Qed.

Lemma sweep_users_world (l : list User) (w : World) :
  snd (sweep_users self l w) = w.
Proof.
  induction l as [|user r IH]; [reflexivity|].
  cbn [sweep_users].
  destruct (split "$" 4 (password user)) as [|f1 [|f2 [|f3 [|f4 [|f5 [|f6 fs]]]]]];
    try reflexivity.
  destruct (startswith "-" f2); [|exact IH].
  destruct (py_int f2) as [sharenumber|]; [|reflexivity].
  destruct (sharenumber =? 0); [|reflexivity].
  unfold bind, raise.
  pose proof (update_hash_thresholdless_world f5 w) as Hw.
  destruct (update_hash_thresholdless self f5 w) as [[ph|e] w1]; cbn [snd] in *;
    now subst w1.
Qed.

Lemma _update_locked_hashes_world (w : World) :
  snd (_update_locked_hashes self w) = w.
Proof.
  unfold _update_locked_hashes, bind, gets, assert, ret, raise.
  destruct (is_unlocked (data w)); [|reflexivity].
  destruct (is_Some_b (thresholdlesskey (data w))); [|reflexivity].
  destruct (is_Some_b (secret (data w))); [|reflexivity].
  apply sweep_users_world.
Qed.








End EngineFacts.

(** * Entries, upgrades and the partial verification channel *)

(** ** Decimal text *)

Lemma digit_value_digit_char (d : Z) :
  0 <= d <= 9 -> digit_value (digit_char d) = Some d.
Proof.
  intros Hd.
  assert (Hc : d = 0 \/ d = 1 \/ d = 2 \/ d = 3 \/ d = 4 \/ d = 5 \/ d = 6
               \/ d = 7 \/ d = 8 \/ d = 9) by lia.
  repeat (destruct Hc as [->|Hc]; [reflexivity|]). now subst.
Qed.

Lemma parse_dec_digits (fuel : nat) :
  forall (n : Z) (acc : str),
    0 <= n < 10 ^ Z.of_nat fuel ->
    parse_digits (dec_digits fuel n acc) 0 = parse_digits acc n.
Proof.
  induction fuel as [|f IH]; intros n acc Hn.
  - cbn in Hn. assert (n = 0) by lia. now subst.
  - cbn [dec_digits]. destruct (n <? 10) eqn:E.
    + apply Z.ltb_lt in E. cbn [parse_digits].
      rewrite digit_value_digit_char by lia. f_equal; lia.
    + apply Z.ltb_ge in E.
      rewrite IH.
      * cbn [parse_digits].
        rewrite digit_value_digit_char by (pose proof (Z.mod_pos_bound n 10); lia).
        f_equal; pose proof (Z.div_mod n 10); lia.
      * rewrite Nat2Z.inj_succ, Z.pow_succ_r in Hn by lia.
        split; [apply Z.div_pos; lia|].
        apply Z.div_lt_upper_bound; lia.
Qed.

Lemma dec_digits_shape (fuel : nat) :
  forall (n : Z) (acc : str),
    0 <= n ->
    Forall (fun c => is_digit c = true) acc ->
    Forall (fun c => is_digit c = true) (dec_digits fuel n acc)
    /\ (dec_digits (S fuel) n acc <> []).
Proof.
  induction fuel as [|f IH]; intros n acc Hn Hacc.
  - split; [exact Hacc|]. cbn. destruct (n <? 10); discriminate.
  - assert (Hd : forall d, 0 <= d <= 9 -> is_digit (digit_char d) = true).
    { intros d Hd. unfold is_digit. now rewrite digit_value_digit_char. }
    split.
    + cbn [dec_digits]. destruct (n <? 10) eqn:E.
      * apply Z.ltb_lt in E. constructor; [apply Hd; lia|exact Hacc].
      * apply Z.ltb_ge in E. apply IH.
        -- apply Z.div_pos; lia.
        -- constructor; [|exact Hacc].
           apply Hd. pose proof (Z.mod_pos_bound n 10). lia.
    + change (dec_digits (S (S f)) n acc)
        with (if n <? 10 then digit_char n :: acc
              else dec_digits (S f) (n / 10) (digit_char (n mod 10) :: acc)).
      destruct (n <? 10) eqn:E; [discriminate|].
      apply Z.ltb_ge in E. apply IH.
      * apply Z.div_pos; lia.
      * constructor; [|exact Hacc].
        apply Hd. pose proof (Z.mod_pos_bound n 10). lia.
Qed.

Lemma dec_nonneg_fuel (n : Z) :
  0 <= n -> 0 <= n < 10 ^ Z.of_nat (S (Z.to_nat (Z.log2 n))).
Proof.
  intros Hn. split; [exact Hn|].
  rewrite Nat2Z.inj_succ, Z2Nat.id by apply Z.log2_nonneg.
  destruct (Z.eq_dec n 0) as [->|Hz].
  - cbn. lia.
  - pose proof (Z.log2_spec n ltac:(lia)) as [_ Hlt].
    eapply Z.lt_le_trans; [exact Hlt|].
    apply Z.pow_le_mono_l. pose proof (Z.log2_nonneg n). lia.
Qed.

Lemma parse_dec_nonneg (n : Z) : 0 <= n -> parse_digits (dec_nonneg n) 0 = Some n.
Proof.
  intros Hn. unfold dec_nonneg. rewrite parse_dec_digits by now apply dec_nonneg_fuel.
  reflexivity.
Qed.

Lemma dec_nonneg_digits (n : Z) :
  0 <= n ->
  Forall (fun c => is_digit c = true) (dec_nonneg n) /\ dec_nonneg n <> [].
Proof.
  intros Hn. unfold dec_nonneg. split.
  - now apply dec_digits_shape.
  - now apply (dec_digits_shape (Z.to_nat (Z.log2 n)) n []).
Qed.

Lemma digit_is_plain (c : ascii) :
  is_digit c = true ->
  is_space c = false /\ ascii_eqb c "-" = false /\ ascii_eqb c "+" = false
  /\ ascii_eqb c "$" = false.
Proof.
  assert (Hall : forallb (fun c =>
            negb (is_digit c)
            || (negb (is_space c) && negb (ascii_eqb c "-") && negb (ascii_eqb c "+")
                && negb (ascii_eqb c "$"))) all_ascii = true)
    by (vm_compute; reflexivity).
  pose proof (ascii_forallb _ Hall c) as Hc. cbv beta in Hc.
  intros Hd. rewrite Hd in Hc. cbn [negb orb] in Hc.
  repeat (apply andb_true_iff in Hc as [Hc ?]).
  repeat split; now apply negb_true_iff.
Qed.

Lemma lstrip_space_id (c : ascii) (r : str) :
  is_space c = false -> lstrip_space (c :: r) = c :: r.
Proof. intros Hc. cbn. now rewrite Hc. Qed.

Lemma strip_space_id (s : str) :
  match s with c :: _ => is_space c = false | [] => True end ->
  match rev s with c :: _ => is_space c = false | [] => True end ->
  strip_space s = s.
Proof.
  intros Hhead Hlast. unfold strip_space.
  destruct s as [|c r]; [reflexivity|].
  rewrite (lstrip_space_id c r Hhead).
  destruct (rev (c :: r)) as [|x t] eqn:E.
  - cbn [lstrip_space rev]. apply (f_equal (@rev ascii)) in E.
    now rewrite rev_involutive in E.
  - rewrite (lstrip_space_id x t Hlast), <- E. apply rev_involutive.
Qed.

Lemma digits_strip_space (s : str) :
  Forall (fun c => is_digit c = true) s -> strip_space s = s.
Proof.
  intros Hs. apply strip_space_id.
  - destruct s as [|c r]; [exact I|]. inversion Hs; subst.
    now apply digit_is_plain.
  - apply Forall_rev in Hs. destruct (rev s) as [|c r]; [exact I|].
    inversion Hs; subst. now apply digit_is_plain.
Qed.

Lemma digits_no_dollar (s : str) :
  Forall (fun c => is_digit c = true) s -> contains "$" s = false.
Proof.
  induction 1 as [|c r Hc _ IH]; [reflexivity|].
  cbn [contains]. apply digit_is_plain in Hc as (_ & _ & _ & Hd). now rewrite Hd.
Qed.

(** [int(str(n)) == n] *)
Lemma py_int_decimal (n : Z) : py_int (decimal n) = Some n.
Proof.
  unfold decimal. destruct (n <? 0) eqn:E.
  - apply Z.ltb_lt in E.
    destruct (dec_nonneg_digits (- n) ltac:(lia)) as [Hd Hne].
    unfold py_int. rewrite strip_space_id.
    + cbn [ascii_eqb]. change (ascii_eqb "-" "-") with true. cbv iota.
      destruct (dec_nonneg (- n)) as [|c r] eqn:Er; [now elim Hne|].
      rewrite <- Er, parse_dec_nonneg by lia. cbn. f_equal. lia.
    + reflexivity.
    + cbn [rev]. apply Forall_rev in Hd.
      destruct (rev (dec_nonneg (- n))) as [|c r] eqn:Er.
      * apply (f_equal (@rev ascii)) in Er. rewrite rev_involutive in Er.
        now elim Hne.
      * cbn. inversion Hd; subst. now apply digit_is_plain.
  - apply Z.ltb_ge in E.
    destruct (dec_nonneg_digits n E) as [Hd Hne].
    unfold py_int. rewrite digits_strip_space by exact Hd.
    destruct (dec_nonneg n) as [|c r] eqn:Er; [now elim Hne|].
    inversion Hd as [|? ? Hc Hr]; subst.
    apply digit_is_plain in Hc as (_ & Hm & Hp & _). rewrite Hm, Hp.
    rewrite <- Er. now apply parse_dec_nonneg.
Qed.

Lemma decimal_no_dollar (n : Z) : contains "$" (decimal n) = false.
Proof.
  unfold decimal. destruct (n <? 0) eqn:E.
  - apply Z.ltb_lt in E. cbn [contains].
    change (ascii_eqb "-" "$") with false. cbn [orb].
    apply digits_no_dollar, dec_nonneg_digits. lia.
  - apply Z.ltb_ge in E. now apply digits_no_dollar, dec_nonneg_digits.
Qed.

Lemma decimal_nonneg_unsigned (n : Z) : 0 <= n -> startswith "-" (decimal n) = false.
Proof.
  intros Hn. unfold decimal. rewrite (proj2 (Z.ltb_ge n 0) Hn).
  destruct (dec_nonneg_digits n Hn) as [Hd Hne].
  destruct (dec_nonneg n) as [|c r]; [reflexivity|].
  inversion Hd; subst. cbn. now apply digit_is_plain.
Qed.

(** ** Splitting an entry into its fields *)

Lemma split_at_last (sep : ascii) (p : str) :
  forall (m : nat) (cur : str),
    contains sep p = false -> split_at sep m cur p = [rev cur ++ p].
Proof.
  induction p as [|x r IH]; intros m cur Hp.
  - cbn. now rewrite app_nil_r.
  - cbn [contains] in Hp. apply orb_false_iff in Hp as [Hx Hr].
    cbn [split_at]. destruct m as [|m]; [reflexivity|].
    rewrite Hx, IH by exact Hr. cbn [rev]. now rewrite <- app_assoc.
Qed.

Lemma split_at_field (sep : ascii) (p rest : str) :
  forall (m : nat) (cur : str),
    contains sep p = false ->
    split_at sep (S m) cur (p ++ sep :: rest)
    = (rev cur ++ p) :: split_at sep m [] rest.
Proof.
  induction p as [|x r IH]; intros m cur Hp.
  - cbn [app split_at]. unfold ascii_eqb. rewrite Ascii.eqb_refl.
    now rewrite app_nil_r.
  - cbn [contains] in Hp. apply orb_false_iff in Hp as [Hx Hr].
    cbn [app split_at]. rewrite Hx, IH by exact Hr.
    cbn [rev]. now rewrite <- app_assoc.
Qed.

Lemma split_at_rest (sep : ascii) (s : str) (cur : str) :
  split_at sep 0 cur s = [rev cur ++ s].
Proof. destruct s; cbn; [now rewrite app_nil_r|reflexivity]. Qed.

Lemma split_at_once (sep : ascii) (s : str) :
  forall cur, contains sep s = true ->
    exists a b, split_at sep 1 cur s = [a; b].
Proof.
  induction s as [|x r IH]; intros cur Hs; [discriminate|].
  cbn [contains] in Hs. cbn [split_at].
  destruct (ascii_eqb x sep) eqn:E.
  - exists (rev cur), r. now rewrite split_at_rest.
  - cbn [orb] in Hs. apply IH. exact Hs.
Qed.

Lemma algorithm_no_dollar : contains "$" algorithm = false.
Proof. reflexivity. Qed.

(** The five fields of an entry whose share and salt fields hold no
    dollar. *)
Lemma split_format_entry (share salt passhash : str) (iters : Z) :
  contains "$" share = false ->
  contains "$" salt = false ->
  split "$" 4 (format_entry share iters salt passhash)
  = [algorithm; share; decimal iters; salt; passhash].
Proof.
  intros Hshare Hsalt. unfold split, format_entry.
  change (lit "$") with ["$"%char]. cbn [app].
  rewrite (split_at_field "$" algorithm _ 3 []) by apply algorithm_no_dollar.
  rewrite (split_at_field "$" share _ 2 []) by exact Hshare.
  rewrite (split_at_field "$" (decimal iters) _ 1 []) by apply decimal_no_dollar.
  rewrite (split_at_field "$" salt _ 0 []) by exact Hsalt.
  now rewrite split_at_rest.
Qed.

(** The first three fields, whatever the salt holds. *)
Lemma split_format_entry_head (share salt passhash : str) (iters : Z) :
  contains "$" share = false ->
  exists x y,
    split "$" 4 (format_entry share iters salt passhash)
    = [algorithm; share; decimal iters; x; y].
Proof.
  intros Hshare. unfold split, format_entry.
  change (lit "$") with ["$"%char]. cbn [app].
  rewrite (split_at_field "$" algorithm _ 3 []) by apply algorithm_no_dollar.
  rewrite (split_at_field "$" share _ 2 []) by exact Hshare.
  rewrite (split_at_field "$" (decimal iters) _ 1 []) by apply decimal_no_dollar.
  destruct (split_at_once "$" (salt ++ "$"%char :: passhash) []) as (x & y & Hxy).
  - clear. induction salt as [|c r IH]; cbn; [reflexivity|].
    rewrite IH. apply orb_true_r.
  - exists x, y. now rewrite Hxy.
Qed.

(** ** The engine *)

Section HasherFacts.

Context {shamir : Type} `{ShamirSecretAPI shamir} `{AESCipher} `{BytearrayXor}
        `{PySet}.
Variable self : PolyPasswordHasher.

Local Abbreviation World := (World shamir).

(** The entry [encode] returns, when it returns one. *)
Lemma encode_entry (password salt : str) (iters : option Z) (w : World) (out : str) :
  fst (encode self password salt iters w) = Ok out ->
  exists share passhash,
    out = format_entry share (encode_iterations self iters) (encode_salt salt) passhash
    /\ contains "$" share = false.
Proof.
  rewrite encode_unfold. cbv zeta.
  destruct (negb (is_unlocked (data (entered w)))
            || negb (is_Some_b (thresholdlesskey (data (entered w))))).
  - destruct (digest _ _ _) as [h|e]; [|discriminate].
    cbn [fst]. intros [= <-]. eexists _, _. split; [reflexivity|].
    cbn [contains]. change (ascii_eqb "-" "$") with false.
    apply decimal_no_dollar.
  - match goal with |- context [match fst ?m with Ok _ => _ | Raise _ => _ end] =>
      destruct (fst m) as [ph|e] end; [|discriminate].
    cbn [fst]. intros [= <-]. eexists _, _. split; [reflexivity|].
    apply decimal_no_dollar.
Qed.

(** X3.  [must_update] of an entry that [encode] produced tells whether the
    iteration count given to [encode] differs from the hasher's own,
    whatever the salt and the state of the engine. *)
Theorem must_update_of_encode (password salt : str) (iters : option Z)
        (w : World) (out : str) :
  fst (encode self password salt iters w) = Ok out ->
  must_update self out = Ok (negb (encode_iterations self iters =? iterations self)).
Proof.
  intros Hout. apply encode_entry in Hout as (share & ph & -> & Hshare).
  unfold must_update.
  destruct (split_format_entry_head share (encode_salt salt) ph
              (encode_iterations self iters) Hshare) as (x & y & ->).
  now rewrite py_int_decimal.
Qed.


(** X1.  A locked-mode entry that [encode] produced verifies against the
    password it was made from, on any engine, and against another password
    exactly when the two PBKDF2 digests coincide.  The salt, once its
    dollars are stripped at both ends, must hold no dollar: the entry is
    split at the first four. *)
Theorem encode_verify_locked (password salt : str) (iters : option Z) (w : World) :
  is_unlocked (data (entered w)) = false
  \/ thresholdlesskey (data (entered w)) = None ->
  0 < encode_iterations self iters ->
  contains "$" (encode_salt salt) = false ->
  exists out,
    fst (encode self password salt iters w) = Ok out
    /\ forall (w2 : World),
         fst (verify self password out w2) = Ok true
         /\ forall password',
              fst (verify self password' out w2) = Ok true
              <-> pbkdf2_F password' (encode_salt salt) (encode_iterations self iters)
                  = pbkdf2_F password (encode_salt salt) (encode_iterations self iters).
Proof.
  intros Hlocked Hit Hsalt.
  assert (Hcond : negb (is_unlocked (data (entered w)))
                  || negb (is_Some_b (thresholdlesskey (data (entered w)))) = true).
  { destruct Hlocked as [-> | ->]; [reflexivity|apply orb_true_r]. }
  set (out := format_entry ("-"%char :: decimal (encode_sharenumber salt w))
                (encode_iterations self iters) (encode_salt salt)
                (b64enc (pbkdf2_F password (encode_salt salt)
                                  (encode_iterations self iters)))).
  exists out. split.
  - rewrite encode_unfold. cbv zeta. rewrite Hcond, digest_int_ok by exact Hit.
    reflexivity.
  - intros w2.
    assert (Hv : forall password',
               fst (verify self password' out w2)
               = Ok (constant_time_compare
                       (b64enc (pbkdf2_F password' (encode_salt salt)
                                         (encode_iterations self iters)))
                       (b64enc (pbkdf2_F password (encode_salt salt)
                                         (encode_iterations self iters))))).
    { intros password'.
      assert (Hshare : contains "$" ("-"%char :: decimal (encode_sharenumber salt w))
                       = false) by apply decimal_no_dollar.
      subst out.
      rewrite (verify_parsed self password' _ _ _ _ _ w2
                 (split_format_entry _ _ _ _ Hshare Hsalt)).
      cbn [startswith]. change (ascii_eqb "-" "-") with true. cbv iota.
      rewrite (digest_str_ok _ _ _ _ (py_int_decimal _) Hit). reflexivity. }
    split.
    + rewrite Hv. now rewrite constant_time_compare_refl.
    + intros password'. rewrite Hv. split.
      * intros [= Hc]. apply constant_time_compare_eq in Hc.
        now apply b64encode_injective in Hc.
      * intros ->. now rewrite constant_time_compare_refl.
Qed.

Lemma entered_unlocked (w : World) : is_unlocked (data w) = true -> entered w = w.
Proof. intros Hu. unfold entered. now rewrite Hu. Qed.

(** X2.  An entry that [encode] produced on an unlocked engine verifies against
    the password it was made from on the engine [encode] left: threshold
    and thresholdless entries alike, and whatever cipher, XOR and Shamir
    object are plugged in. *)
Theorem encode_verify_unlocked (password salt : str) (iters : option Z)
        (w w' : World) (out : str) :
  is_unlocked (data w) = true ->
  is_Some_b (secret (data w)) = true ->
  is_Some_b (thresholdlesskey (data w)) = true ->
  0 <= nextavailableshare (data w) ->
  0 < encode_iterations self iters ->
  contains "$" (encode_salt salt) = false ->
  encode self password salt iters w = (Ok out, w') ->
  fst (verify self password out w') = Ok true.
Proof.
  intros Hu Hsec Hkey Hnext Hit Hsalt.
  rewrite encode_unfold. cbv zeta.
  rewrite (entered_unlocked w Hu), Hu, Hkey. cbn [negb orb].
  set (n := encode_sharenumber salt w).
  set (w2 := if contains "$" salt then allocated w else w).
  assert (Hn : 0 <= n).
  { subst n. unfold encode_sharenumber. rewrite (entered_unlocked w Hu).
    destruct (contains "$" salt); lia. }
  assert (Hw2 : is_unlocked (data w2) = true
                /\ is_Some_b (secret (data w2)) = true
                /\ is_Some_b (thresholdlesskey (data w2)) = true).
  { subst w2. destruct (contains "$" salt); [unfold allocated; cbn|]; auto. }
  destruct Hw2 as (Hu2 & Hsec2 & Hkey2).
  set (m := if n =? 0 then _encrypt_entry self password (encode_salt salt)
            else _polyhash_entry self password (encode_salt salt) n).
  assert (Hm : snd (m w2) = w2).
  { subst m. destruct (n =? 0); [apply _encrypt_entry_world|apply _polyhash_entry_world]. }
  destruct (m w2) as [[ph|e] w3] eqn:Em; cbn [fst snd] in Hm |- *; [|discriminate].
  subst w3. intros [= <- <-].
  rewrite (verify_parsed self password _ _ _ _ _ w2
             (split_format_entry _ _ _ _ (decimal_no_dollar n) Hsalt)).
  rewrite (decimal_nonneg_unsigned n Hn), py_int_decimal, (entered_unlocked w2 Hu2).
  unfold bind at 1, gets at 1. rewrite Hsec2, Hkey2. cbn [andb].
  assert (Hprop : (if negb (n =? 0)
                   then _polyhash_entry self password (encode_salt salt) n
                   else _encrypt_entry self password (encode_salt salt)) w2
                  = (Ok ph, w2)).
  { rewrite <- Em. subst m. destruct (n =? 0); reflexivity. }
  rewrite (bind_ok _ _ _ _ _ Hprop).
  rewrite constant_time_compare_refl.
  unfold bind. rewrite _partial_verify_unfold.
  rewrite (digest_str_ok _ _ _ _ (py_int_decimal _) Hit).
  destruct (constant_time_compare _ _); reflexivity.
Qed.

Lemma entered_data_ext (w1 w2 : World) :
  data w1 = data w2 -> cache w1 = cache w2 -> defaults w1 = defaults w2 ->
  data (entered w1) = data (entered w2).
Proof.
  intros Hd Hc Hf. unfold entered. rewrite Hd, Hc.
  destruct (is_unlocked (data w2)); [exact Hd|].
  destruct (c_hasher (cache w2)); [reflexivity|exact Hf].
Qed.

Lemma entered_entered (w : World) : data (entered (entered w)) = data (entered w).
Proof.
  destruct (is_unlocked (data w)) eqn:Hu.
  - now rewrite !(entered_unlocked w Hu).
  - unfold entered at 2 3. rewrite Hu.
    destruct (c_hasher (cache w)) as [d|] eqn:Hc; unfold entered; cbn [data cache defaults].
    + destruct (is_unlocked d); [reflexivity|]. now rewrite Hc.
    + destruct (is_unlocked (defaults w)); [reflexivity|]. now rewrite Hc.
Qed.

Lemma entered_allocated (w : World) :
  nextavailableshare (data (entered (allocated w))) = nextavailableshare (data w) + 1.
Proof.
  unfold entered, allocated. cbn. destruct (is_unlocked (data w)); reflexivity.
Qed.

(** The engine [encode] leaves, up to the log. *)
Lemma encode_world (password salt : str) (iters : option Z) (w : World) :
  let w2 := if contains "$" salt then allocated (entered w) else entered w in
  let w' := snd (encode self password salt iters w) in
  data w' = data w2 /\ cache w' = cache w2 /\ defaults w' = defaults w2.
Proof.
  cbv zeta. rewrite encode_unfold. cbv zeta.
  destruct (negb (is_unlocked (data (entered w)))
            || negb (is_Some_b (thresholdlesskey (data (entered w))))).
  - destruct (digest _ _ _); cbn; auto.
  - match goal with |- context [match fst ?m with Ok _ => _ | Raise _ => _ end] =>
      destruct (fst m) end; cbn; auto.
Qed.

(** The share counter as the next call reads it: one more after an
    [encode] whose salt holds a dollar, the same otherwise, whether that
    [encode] returned or raised. *)
Lemma encode_counter (password salt : str) (iters : option Z) (w : World) :
  nextavailableshare (data (entered (snd (encode self password salt iters w))))
  = nextavailableshare (data (entered w)) + (if contains "$" salt then 1 else 0).
Proof.
  destruct (encode_world password salt iters w) as (Hd & Hc & Hf).
  rewrite (entered_data_ext _ _ Hd Hc Hf).
  destruct (contains "$" salt).
  - apply entered_allocated.
  - rewrite entered_entered. lia.
Qed.

(** The share number field of an entry. *)
Lemma share_field (share rest : str) :
  contains "$" share = false ->
  nth 1 (split "$" 4 (algorithm ++ lit "$" ++ share ++ lit "$" ++ rest)) [] = share.
Proof.
  intros Hshare. unfold split. change (lit "$") with ["$"%char]. cbn [app].
  rewrite (split_at_field "$" algorithm _ 3 []) by apply algorithm_no_dollar.
  rewrite (split_at_field "$" share _ 2 []) by exact Hshare.
  reflexivity.
Qed.

(** [int("-" + str(n)) == -n] *)
Lemma py_int_minus_decimal (n : Z) : 0 <= n -> py_int ("-"%char :: decimal n) = Some (- n).
Proof.
  intros Hn. destruct (Z.eq_dec n 0) as [->|Hz]; [reflexivity|].
  rewrite <- (py_int_decimal (- n)). f_equal.
  unfold decimal.
  rewrite (proj2 (Z.ltb_lt (- n) 0)) by lia.
  rewrite (proj2 (Z.ltb_ge n 0)) by lia.
  now rewrite Z.opp_involutive.
Qed.

(** X4.  Two calls of [encode] in a row with salts that hold a dollar never
    get the same share number: read as integers, the share number field
    of the first entry is the counter [n] as read on entry and that of the
    second is [n + 1], each with the minus sign that marks a locked-mode
    entry or without it. *)
Theorem encode_share_numbers_consecutive (password1 salt1 password2 salt2 : str)
        (iters1 iters2 : option Z) (w : World) (out1 out2 : str) :
  contains "$" salt1 = true ->
  contains "$" salt2 = true ->
  0 <= nextavailableshare (data (entered w)) ->
  fst (encode self password1 salt1 iters1 w) = Ok out1 ->
  fst (encode self password2 salt2 iters2
         (snd (encode self password1 salt1 iters1 w))) = Ok out2 ->
  exists k1 k2 : Z,
    py_int (nth 1 (split "$" 4 out1) []) = Some k1
    /\ py_int (nth 1 (split "$" 4 out2) []) = Some k2
    /\ Z.abs k1 = nextavailableshare (data (entered w))
    /\ Z.abs k2 = nextavailableshare (data (entered w)) + 1.
Proof.
  intros Hs1 Hs2 Hpos Ho1 Ho2.
  assert (Hfield : forall password salt iters (w0 : World) out,
             contains "$" salt = true ->
             0 <= nextavailableshare (data (entered w0)) ->
             fst (encode self password salt iters w0) = Ok out ->
             exists k,
               py_int (nth 1 (split "$" 4 out) []) = Some k
               /\ Z.abs k = nextavailableshare (data (entered w0))).
  { intros password salt iters w0 out Hs Hn. rewrite encode_unfold. cbv zeta.
    unfold encode_sharenumber. rewrite Hs.
    destruct (negb (is_unlocked (data (entered w0)))
              || negb (is_Some_b (thresholdlesskey (data (entered w0))))).
    - destruct (digest _ _ _); [|discriminate]. cbn [fst]. intros [= <-].
      unfold format_entry. rewrite share_field by apply decimal_no_dollar.
      exists (- nextavailableshare (data (entered w0))).
      split; [now apply py_int_minus_decimal|lia].
    - match goal with |- context [match fst ?m with Ok _ => _ | Raise _ => _ end] =>
        destruct (fst m) end; [|discriminate]. cbn [fst]. intros [= <-].
      unfold format_entry. rewrite share_field by apply decimal_no_dollar.
      exists (nextavailableshare (data (entered w0))).
      split; [apply py_int_decimal|lia]. }
  destruct (Hfield _ _ _ _ _ Hs1 Hpos Ho1) as (k1 & Hk1 & Ha1).
  assert (Hnext : nextavailableshare
                    (data (entered (snd (encode self password1 salt1 iters1 w))))
                  = nextavailableshare (data (entered w)) + 1)
    by (rewrite encode_counter, Hs1; reflexivity).
  assert (Hpos2 : 0 <= nextavailableshare
                         (data (entered (snd (encode self password1 salt1 iters1 w)))))
    by (rewrite Hnext; lia).
  destruct (Hfield _ _ _ _ _ Hs2 Hpos2 Ho2) as (k2 & Hk2 & Ha2).
  exists k1, k2. rewrite Hnext in Ha2. auto.
Qed.

(** What [mask_hash] shows: the length of its argument, its first six
    characters, and a star in every other place. *)
Lemma mask_hash_spec (h : str) :
  length (mask_hash h) = length h
  /\ forall i : nat,
       (i < length h)%nat ->
       nth i (mask_hash h) "*"%char
       = if (i <? 6)%nat then nth i h "*"%char else "*"%char.
Proof.
  unfold mask_hash, slice_to, slice_from, slice_index, len.
  change (6 <? 0) with false. cbv iota.
  set (k := Z.to_nat (Z.min 6 (Z.of_nat (length h)))).
  assert (Hk : k = Nat.min 6 (length h)) by (subst k; lia).
  split.
  - rewrite length_app, length_firstn, repeat_length, length_skipn. lia.
  - intros i Hi. destruct (i <? 6)%nat eqn:E.
    + apply Nat.ltb_lt in E.
      rewrite app_nth1 by (rewrite length_firstn; lia).
      rewrite nth_firstn. replace (i <? k)%nat with true; [reflexivity|].
      symmetry. apply Nat.ltb_lt. lia.
    + apply Nat.ltb_ge in E.
      rewrite app_nth2 by (rewrite length_firstn; lia).
      apply nth_repeat.
Qed.

(** X7.  [safe_summary] lists the five fields in order and never shows more of
    the salt and of the hash than their length and their first six
    characters. *)
Theorem safe_summary_masks (encoded sn it salt hash : str) :
  split "$" 4 encoded = [algorithm; sn; it; salt; hash] ->
  exists msalt mhash : str,
    safe_summary encoded
    = Ok [(lit "algorithm", algorithm); (lit "sharenumber", sn);
          (lit "iterations", it); (lit "salt", msalt); (lit "hash", mhash)]
    /\ length msalt = length salt
    /\ length mhash = length hash
    /\ (forall i : nat,
          (i < length salt)%nat ->
          nth i msalt "*"%char = if (i <? 6)%nat then nth i salt "*"%char else "*"%char)
    /\ (forall i : nat,
          (i < length hash)%nat ->
          nth i mhash "*"%char = if (i <? 6)%nat then nth i hash "*"%char else "*"%char).
Proof.
  intros Hsplit. exists (mask_hash salt), (mask_hash hash).
  unfold safe_summary. rewrite Hsplit.
  assert (Halg : str_eqb algorithm algorithm = true) by now apply str_eqb_eq.
  rewrite Halg.
  destruct (mask_hash_spec salt) as [Hls Hns], (mask_hash_spec hash) as [Hlh Hnh].
  auto.
Qed.

(** X14.  Upgrading the stored hash of a locked-mode entry made with the
    hasher's own iteration count gives the very hash [_encrypt_entry]
    computes from the password: the upgraded thresholdless entry is the one
    an unlocked [encode] writes. *)
Theorem update_hash_thresholdless_of_locked (password salt key : str) (w : World) :
  thresholdlesskey (data w) = Some key ->
  0 < iterations self ->
  update_hash_thresholdless self
    (b64enc (pbkdf2_F password salt (iterations self))) w
  = _encrypt_entry self password salt w.
Proof.
  intros Hkey Hit.
  unfold update_hash_thresholdless, _encrypt_entry, b64enc.
  rewrite b64decode_b64encode.
  unfold bind, gets. rewrite Hkey.
  unfold lift. rewrite digest_int_ok by exact Hit. reflexivity.
Qed.

(** X15.  The same for a threshold entry: [update_hash_threshold] takes the next
    share number, stores the incremented counter, and returns the hash
    [_polyhash_entry] computes from the password for that share number. *)
Theorem update_hash_threshold_of_locked (password salt : str) (obj : shamir) (w : World) :
  shamirsecretobj (data w) = Some obj ->
  0 < iterations self ->
  update_hash_threshold self (b64enc (pbkdf2_F password salt (iterations self))) w
  = match fst (_polyhash_entry self password salt (nextavailableshare (data w)) w) with
    | Ok passhash => (Ok (passhash, nextavailableshare (data w)), allocated w)
    | Raise e => (Raise e, allocated w)
    end.
Proof.
  intros Hobj Hit.
  unfold update_hash_threshold, _polyhash_entry, b64enc.
  rewrite b64decode_b64encode.
  unfold bind, gets, set_data, modify, update, set_cache, lift, ret.
  cbn. fold (allocated w).
  rewrite Hobj, digest_int_ok by exact Hit.
  destruct (compute_share obj (nextavailableshare (data w))) as [[m y]|e];
    [|reflexivity].
  cbn. destruct (do_bytearray_xor _ _); reflexivity.
Qed.

(** The sweep stops with an exception at the first user it has to
    upgrade, or before. *)
Lemma sweep_users_raises (l : list User) (w : World) (u : User)
      (a sn it salt h : str) :
  In u l ->
  split "$" 4 (password u) = [a; sn; it; salt; h] ->
  startswith "-" sn = true ->
  exists e, fst (sweep_users self l w) = Raise e.
Proof.
  intros Hin Hsplit Hneg.
  assert (Hhead : forall (x : User) (r : list User) f1 f2 f3 f4 f5,
             split "$" 4 (password x) = [f1; f2; f3; f4; f5] ->
             startswith "-" f2 = true ->
             exists e, fst (sweep_users self (x :: r) w) = Raise e).
  { intros x r f1 f2 f3 f4 f5 Hx Hf2. cbn [sweep_users]. rewrite Hx, Hf2.
    destruct (py_int f2) as [n|]; [|now eexists].
    destruct (n =? 0); [|now eexists].
    unfold bind, raise.
    destruct (update_hash_thresholdless self f5 w) as [[ph|e] w1]; now eexists. }
  induction l as [|x r IH]; [contradiction|].
  destruct Hin as [->|Hin]; [now apply (Hhead u r a sn it salt h)|].
  destruct (split "$" 4 (password x))
    as [|f1 [|f2 [|f3 [|f4 [|f5 [|f6 fs]]]]]] eqn:Hx;
    try (cbn [sweep_users]; rewrite Hx; now eexists).
  destruct (startswith "-" f2) eqn:Hf2; [now apply (Hhead x r f1 f2 f3 f4 f5)|].
  cbn [sweep_users]. rewrite Hx, Hf2. now apply IH.
Qed.

Lemma _update_locked_hashes_raises (w : World) (u : User) (a sn it salt h : str) :
  In u (users w) ->
  last_unlocked (data w) <= date_joined u ->
  split "$" 4 (password u) = [a; sn; it; salt; h] ->
  startswith "-" sn = true ->
  exists e, fst (_update_locked_hashes self w) = Raise e.
Proof.
  intros Hin Hdate Hsplit Hneg.
  unfold _update_locked_hashes, bind, gets, assert, ret, raise.
  destruct (is_unlocked (data w)); [|now eexists].
  destruct (is_Some_b (thresholdlesskey (data w))); [|now eexists].
  destruct (is_Some_b (secret (data w))); [|now eexists].
  apply (sweep_users_raises _ w u a sn it salt h); [|exact Hsplit|exact Hneg].
  apply list_elem_of_In, list_elem_of_filter. split.
  - apply Is_true_true. now apply Z.leb_le.
  - now apply list_elem_of_In.
Qed.

(** X16.  [_update_locked_hashes] never upgrades an entry: as soon as one user
    who joined since the last unlock holds a locked-mode entry, the call
    raises, and in every case it leaves the engine and the users as they
    were. *)
Theorem update_locked_hashes_never_upgrades (w : World) :
  snd (_update_locked_hashes self w) = w
  /\ forall (u : User) (a sn it salt h : str),
       In u (users w) ->
       last_unlocked (data w) <= date_joined u ->
       split "$" 4 (password u) = [a; sn; it; salt; h] ->
       startswith "-" sn = true ->
       exists e, fst (_update_locked_hashes self w) = Raise e.
Proof.
  split; [apply _update_locked_hashes_world|].
  intros u a sn it salt h. apply _update_locked_hashes_raises.
Qed.

(** The audit of the partial verifications writes to the log only. *)
Lemma audit_partial_hashes_frame (l : list (str * (Z * str))) :
  forall (w w' : World) (r : result unit),
    audit_partial_hashes l w = (r, w') ->
    data w' = data w /\ cache w' = cache w /\ users w' = users w /\ clock w' = clock w.
Proof.
  induction l as [|[original_hash [sharenumber saltedhash]] rest IH]; intros w w' r.
  - intros [= _ <-]. now repeat split.
  - cbn [audit_partial_hashes]. unfold bind at 1.
    match goal with |- context [match ?m w with _ => _ end] =>
      assert (Hhead : data (snd (m w)) = data w /\ cache (snd (m w)) = cache w
                      /\ users (snd (m w)) = users w /\ clock (snd (m w)) = clock w);
        [|destruct (m w) as [[[]|e] w1]] end.
    + destruct (sharenumber =? 0); [|now repeat split].
      destruct (b64decode saltedhash); [|now repeat split].
      unfold bind, gets, lift, logger, modify, ret, raise.
      destruct (thresholdlesskey (data w)); [|now repeat split].
      destruct (AES_encrypt _ _); [|now repeat split].
      destruct (negb _); now repeat split.
    + cbn [snd] in Hhead. destruct Hhead as (Hd & Hc & Hu & Hk).
      intros Hrest. destruct (IH _ _ _ Hrest) as (Hd' & Hc' & Hu' & Hk').
      repeat split; congruence.
    + intros [= _ <-]. exact Hhead.
Qed.

Lemma _verify_previous_hashes_frame (w w' : World) (r : result unit) :
  _verify_previous_hashes w = (r, w') ->
  data w' = data w /\ cache w' = cache w /\ users w' = users w /\ clock w' = clock w.
Proof.
  unfold _verify_previous_hashes, bind, gets.
  destruct (c_partial_hashes (cache w)).
  - apply audit_partial_hashes_frame.
  - intros [= _ <-]. now repeat split.
Qed.

(** The engine in the middle of [_recombine], once the recovered secret
    has passed [verify_secret] and the unlock flags are set. *)
Lemma _recombine_reaches_audit (w : World) (sharenumbers : list Z)
      (shares : list (Z * str)) (obj : shamir) (sec : str) :
  c_sharenumbers (cache w) = Some sharenumbers ->
  recombination_shares (cache w) sharenumbers = Ok shares ->
  recover_secretdata (ShamirSecret (threshold self)) shares = Ok obj ->
  secretdata obj = Some sec ->
  verify_secret self sec = Ok true ->
  exists wu : World,
    _recombine self w
    = bind (_verify_previous_hashes) (fun _ =>
      bind (_update_locked_hashes self) (fun _ =>
      bind utcnow (fun now =>
      bind (set_data (fun d =>
              {| is_unlocked := is_unlocked d; secret := secret d;
                 nextavailableshare := nextavailableshare d;
                 shamirsecretobj := shamirsecretobj d;
                 thresholdlesskey := thresholdlesskey d;
                 last_unlocked := now |})) (fun _ => update)))) wu
    /\ unlocked_with sec (data wu)
    /\ last_unlocked (data wu) = last_unlocked (data w)
    /\ nextavailableshare (data wu) = nextavailableshare (data w)
    /\ shamirsecretobj (data wu) = Some obj
    /\ cache wu = cache w /\ users wu = users w /\ clock wu = clock w.
Proof.
  intros Hset Hshares Hrec Hsec Hfp.
  unfold _recombine. unfold bind at 1, gets at 1. rewrite Hset.
  unfold bind at 1, lift at 1. rewrite Hshares.
  unfold bind at 1, set_data at 1, modify at 1.
  unfold bind at 1, lift at 1. rewrite Hrec.
  unfold bind at 1, set_data at 1, modify at 1.
  unfold bind at 1. rewrite Hsec. unfold lift at 1. rewrite Hfp.
  unfold bind at 1. cbn [negb]. unfold ret at 1.
  unfold bind at 1, set_data at 1, modify at 1.
  eexists. split; [reflexivity|]. cbn. repeat split.
Qed.

(** X17.  An unlock interrupted by the sweep: when the recovered secret is the
    right one but a user who joined since the last unlock holds a
    locked-mode entry, [_recombine] raises.  The process is left unlocked
    in memory, while the state stored in the cache and the time of the
    last unlock are not written, and the candidate shares stay in the
    cache. *)
Theorem recombine_interrupted_by_sweep (w : World) (sharenumbers : list Z)
        (shares : list (Z * str)) (obj : shamir) (sec : str)
        (u : User) (a sn it salt h : str) :
  c_sharenumbers (cache w) = Some sharenumbers ->
  recombination_shares (cache w) sharenumbers = Ok shares ->
  recover_secretdata (ShamirSecret (threshold self)) shares = Ok obj ->
  secretdata obj = Some sec ->
  verify_secret self sec = Ok true ->
  In u (users w) ->
  last_unlocked (data w) <= date_joined u ->
  split "$" 4 (password u) = [a; sn; it; salt; h] ->
  startswith "-" sn = true ->
  exists (e : exn) (w' : World),
    _recombine self w = (Raise e, w')
    /\ unlocked_with sec (data w')
    /\ last_unlocked (data w') = last_unlocked (data w)
    /\ c_hasher (cache w') = c_hasher (cache w)
    /\ c_shares (cache w') = c_shares (cache w).
Proof.
  intros Hset Hshares Hrec Hsec Hfp Hin Hdate Hsplit Hneg.
  destruct (_recombine_reaches_audit w _ _ _ _ Hset Hshares Hrec Hsec Hfp)
    as (wu & -> & Hu & Hlast & _ & _ & Hc & Hus & _).
  unfold bind at 1.
  destruct (_verify_previous_hashes wu) as [r1 w3] eqn:E1.
  destruct (_verify_previous_hashes_frame _ _ _ E1) as (Hd1 & Hc1 & Hu1 & _).
  destruct r1 as [[]|e].
  - unfold bind at 1.
    pose proof (_update_locked_hashes_world self w3) as Hw3.
    destruct (_update_locked_hashes_raises w3 u a sn it salt h) as [e He];
      [congruence|rewrite Hd1; lia|exact Hsplit|exact Hneg|].
    destruct (_update_locked_hashes self w3) as [[[]|e'] w4]; cbn [fst snd] in *;
      [discriminate|]. subst w4.
    exists e', w3. rewrite Hd1, Hc1, Hc. auto.
  - exists e, w3. rewrite Hd1, Hc1, Hc. auto.
Qed.

Lemma sweep_users_passes (l : list User) (w : World) :
  Forall (fun u => exists a sn it salt h,
            split "$" 4 (password u) = [a; sn; it; salt; h]
            /\ startswith "-" sn = false) l ->
  sweep_users self l w = (Ok tt, w).
Proof.
  induction 1 as [|u r (a & sn & it & salt & h & Hsplit & Hneg) _ IH]; [reflexivity|].
  cbn [sweep_users]. now rewrite Hsplit, Hneg.
Qed.

(** X18.  A completed unlock: when the recovered secret is the right one, no
    partial verification is on record and no user who joined since the last
    unlock holds a locked-mode entry, [_recombine] returns, the process is
    unlocked, the time of the unlock is the clock's, and the state stored
    in the cache is the state of the process.  The candidate shares are
    still in the cache. *)
Theorem recombine_persists (w : World) (sharenumbers : list Z)
        (shares : list (Z * str)) (obj : shamir) (sec : str) :
  c_sharenumbers (cache w) = Some sharenumbers ->
  recombination_shares (cache w) sharenumbers = Ok shares ->
  recover_secretdata (ShamirSecret (threshold self)) shares = Ok obj ->
  secretdata obj = Some sec ->
  verify_secret self sec = Ok true ->
  c_partial_hashes (cache w) = None ->
  (forall u, In u (users w) ->
             last_unlocked (data w) <= date_joined u ->
             exists a sn it salt h,
               split "$" 4 (password u) = [a; sn; it; salt; h]
               /\ startswith "-" sn = false) ->
  exists w' : World,
    _recombine self w = (Ok tt, w')
    /\ unlocked_with sec (data w')
    /\ shamirsecretobj (data w') = Some obj
    /\ nextavailableshare (data w') = nextavailableshare (data w)
    /\ last_unlocked (data w') = clock w
    /\ c_hasher (cache w') = Some (data w')
    /\ c_shares (cache w') = c_shares (cache w).
Proof.
  intros Hset Hshares Hrec Hsec Hfp Hnone Husers.
  destruct (_recombine_reaches_audit w _ _ _ _ Hset Hshares Hrec Hsec Hfp)
    as (wu & -> & (Hu1 & Hu2 & Hu3) & Hlast & Hnext & Hobj & Hc & Hus & Hk).
  unfold bind at 1. unfold _verify_previous_hashes, bind at 1, gets at 1.
  rewrite Hc, Hnone. unfold ret at 1.
  unfold bind at 1.
  assert (Hsweep : _update_locked_hashes self wu = (Ok tt, wu)).
  { unfold _update_locked_hashes, bind, gets, assert, ret.
    rewrite Hu1, Hu3, Hu2. cbn [is_Some_b].
    apply sweep_users_passes. apply Forall_forall. intros u Hu.
    apply list_elem_of_filter in Hu as [Hdate Hin].
    apply Is_true_true, Z.leb_le in Hdate. apply list_elem_of_In in Hin.
    apply Husers; [congruence|lia]. }
  rewrite Hsweep.
  unfold bind, utcnow, gets, set_data, modify, update, set_cache. cbn.
  eexists. split; [reflexivity|]. cbn.
  rewrite Hu1, Hu2, Hu3, Hobj, Hnext, Hk, Hc. repeat split.
Qed.

(** ** The partial verification channel *)

(** Encoding a string whose first part is a whole number of groups. *)
Lemma b64encode_app (a b : str) :
  (length a mod 3 = 0)%nat -> b64encode (a ++ b) = b64encode a ++ b64encode b.
Proof.
  induction a as [| x | x y | x y z r IH] using list_ind3; intros Hl.
  - reflexivity.
  - discriminate.
  - discriminate.
  - cbn [app b64encode]. rewrite IH; [reflexivity|].
    cbn [length] in Hl.
    replace (S (S (S (length r)))) with (length r + 1 * 3)%nat in Hl by lia.
    now rewrite Nat.Div0.mod_add in Hl.
Qed.

(** The last [p] characters of a string, as the slice [x[len(x) - p:]]
    takes them, are the last [p] characters of any tail that long. *)
Lemma slice_from_tail (x s : str) (p : Z) :
  0 <= p <= len s ->
  slice_from (x ++ s) (len (x ++ s) - p) = skipn (Z.to_nat (len s - p)) s.
Proof.
  intros Hp. unfold slice_from, slice_index, len in *. rewrite length_app.
  destruct (Z.ltb_spec (Z.of_nat (length x + length s) - p) 0); [lia|].
  set (k := Z.to_nat _).
  assert (Hk : k = (length x + Z.to_nat (Z.of_nat (length s) - p))%nat) by (subst k; lia).
  rewrite Hk, skipn_app, skipn_all2 by lia.
  cbn [app]. f_equal. lia.
Qed.

(** The hash of an entry made by [_polyhash_entry] or [_encrypt_entry]
    ends with the base64 text of the last [partialbytes] bytes of the
    PBKDF2 digest. *)
Lemma entry_suffix (password salt stored : str) (n : Z) (w0 : World) :
  fst (_polyhash_entry self password salt n w0) = Ok stored
  \/ fst (_encrypt_entry self password salt w0) = Ok stored ->
  0 < iterations self
  /\ exists x,
       stored = x ++ b64enc (partial_suffix self
                               (pbkdf2_F password salt (iterations self))).
Proof.
  intros [Hst|Hst].
  - unfold _polyhash_entry, bind, gets, lift, ret in Hst.
    destruct (shamirsecretobj (data w0)); [|discriminate].
    destruct (digest password (Some salt) (IterInt (iterations self))) as [h|e] eqn:Hd;
      [|discriminate].
    destruct (digest_ok_inv _ _ _ _ Hd) as (i & Hi & Hh & <-).
    split; [exact Hi|].
    destruct (compute_share _ _) as [share|e]; [|discriminate].
    destruct (do_bytearray_xor _ _) as [ph|e]; [|discriminate].
    cbn in Hst. injection Hst as <-. subst h. now eexists.
  - unfold _encrypt_entry, bind, gets, lift, ret in Hst.
    destruct (thresholdlesskey (data w0)); [|discriminate].
    destruct (digest password (Some salt) (IterInt (iterations self))) as [h|e] eqn:Hd;
      [|discriminate].
    destruct (digest_ok_inv _ _ _ _ Hd) as (i & Hi & Hh & <-).
    split; [exact Hi|].
    destruct (AES_encrypt _ _) as [ph|e]; [|discriminate].
    cbn in Hst. injection Hst as <-. subst h. now eexists.
Qed.

Lemma partial_suffix_skipn (h : str) :
  0 <= partialbytes self <= len h ->
  partial_suffix self h = skipn (Z.to_nat (len h - partialbytes self)) h.
Proof.
  intros Hp. unfold partial_suffix.
  now rewrite <- (slice_from_tail [] h (partialbytes self) Hp).
Qed.

(** The partial bytes of the base64 text of a digest and those of an
    entry's hash, when the digest splits into whole groups before its last
    [partialbytes] bytes. *)
Lemma partial_suffix_of_digest (h x : str) :
  length h = 32%nat ->
  0 <= partialbytes self <= 32 ->
  (32 - partialbytes self) mod 3 = 0 ->
  partial_suffix self (b64enc h)
  = partial_suffix self (x ++ b64enc (partial_suffix self h)).
Proof.
  intros Hlen Hp Hmod.
  assert (Hph : 0 <= partialbytes self <= len h) by (unfold len; lia).
  pose proof (partial_suffix_length self h ltac:(lia)) as Hge.
  pose proof (b64encode_length_ge (partial_suffix self h)) as Hge'.
  set (s := b64enc (partial_suffix self h)).
  assert (Hs : 0 <= partialbytes self <= len s).
  { subst s. unfold b64enc, len in *. lia. }
  assert (Hsplit : b64enc h
                   = b64encode (firstn (Z.to_nat (len h - partialbytes self)) h) ++ s).
  { subst s. rewrite (partial_suffix_skipn h Hph). unfold b64enc.
    rewrite <- b64encode_app; [now rewrite firstn_skipn|].
    rewrite length_firstn. unfold len. rewrite Hlen.
    replace (Nat.min (Z.to_nat (Z.of_nat 32 - partialbytes self)) 32)
      with (Z.to_nat (32 - partialbytes self)) by lia.
    apply Nat2Z.inj. rewrite Nat2Z.inj_mod, Z2Nat.id by lia. exact Hmod. }
  rewrite Hsplit. unfold partial_suffix.
  now rewrite !slice_from_tail by exact Hs.
Qed.

Lemma partial_verify_accepts_entry_helper (password salt stored : str) (n k : Z)
        (iters : iter_arg) (w0 w : World) :
  0 <= partialbytes self <= 32 ->
  (32 - partialbytes self) mod 3 = 0 ->
  fst (_polyhash_entry self password salt n w0) = Ok stored
  \/ fst (_encrypt_entry self password salt w0) = Ok stored ->
  match iters with
  | IterInt i => i = iterations self
  | IterStr s => py_int s = Some (iterations self)
  end ->
  fst (_partial_verify self password salt stored iters k w) = Ok true.
Proof.
  intros Hp Hmod Hentry Hit.
  destruct (entry_suffix _ _ _ _ _ Hentry) as (Hpos & x & ->).
  rewrite _partial_verify_unfold.
  assert (Hd : digest password (Some salt) iters
               = Ok (pbkdf2_F password salt (iterations self))).
  { destruct iters as [i|s].
    - subst i. now apply digest_int_ok.
    - now apply digest_str_ok. }
  rewrite Hd.
  rewrite <- (partial_suffix_of_digest _ x (pbkdf2_F_length _ _ _) Hp Hmod).
  now rewrite constant_time_compare_refl.
Qed.

(** X9.  With the right password, partial verification accepts an entry made by
    [_polyhash_entry] or [_encrypt_entry], provided the last
    [partialbytes] bytes of the 32-byte digest start on a base64 group
    (2, 5, 8, ... partial bytes): locked-mode logins with the right
    password succeed. *)
Theorem partial_verify_accepts_entry (password salt stored : str) (n k : Z)
        (iters : iter_arg) (w0 w : World) :
  0 <= partialbytes self <= 32 ->
  (32 - partialbytes self) mod 3 = 0 ->
  fst (_polyhash_entry self password salt n w0) = Ok stored
  \/ fst (_encrypt_entry self password salt w0) = Ok stored ->
  match iters with
  | IterInt i => i = iterations self
  | IterStr s => py_int s = Some (iterations self)
  end ->
  fst (_partial_verify self password salt stored iters k w) = Ok true.
Proof. apply partial_verify_accepts_entry_helper. Qed.

Lemma skipn_last_one (d : ascii) (n : nat) :
  forall h : str, length h = S n -> skipn n h = [nth n h d].
Proof.
  induction n as [|n IH]; intros [|a h] Hl; try discriminate.
  - destruct h; [reflexivity|discriminate].
  - cbn [skipn nth]. apply IH. now injection Hl.
Qed.

Lemma skipn_last_two (d : ascii) (n : nat) :
  forall h : str, length h = S (S n) -> skipn n h = [nth n h d; nth (S n) h d].
Proof.
  induction n as [|n IH]; intros [|a h] Hl; try discriminate.
  - destruct h as [|b [|c h]]; try discriminate. reflexivity.
  - cbn [skipn]. rewrite (IH h) by now injection Hl. reflexivity.
Qed.

(** The base64 text of a 32-byte digest ends with the character that
    holds the low four bits of its last byte, and one padding character. *)
Lemma b64encode_digest_tail (h : str) :
  length h = 32%nat ->
  exists front,
    b64encode h
    = front ++ [table_b2a (sextet3 (ord (nth 31 h "000"%char)) 0); "="%char].
Proof.
  intros Hlen.
  assert (He : b64encode h = b64encode (firstn 30 h) ++ b64encode (skipn 30 h)).
  { rewrite <- b64encode_app by (rewrite length_firstn, Hlen; reflexivity).
    now rewrite firstn_skipn. }
  rewrite (skipn_last_two "000"%char 30 h Hlen) in He. cbn [b64encode] in He.
  eexists (_ ++ [_; _]). rewrite He, <- app_assoc. reflexivity.
Qed.

(** The last base64 character before the padding tells the low four bits
    of the last byte apart, and nothing else. *)
Lemma sextet3_low_bits (a b : ascii) :
  ascii_eqb (table_b2a (sextet3 (ord a) 0)) (table_b2a (sextet3 (ord b) 0))
  = (Z.land (ord a) 15 =? Z.land (ord b) 15).
Proof.
  assert (Hall : forallb (fun a => forallb (fun b =>
            Bool.eqb
              (ascii_eqb (table_b2a (sextet3 (ord a) 0)) (table_b2a (sextet3 (ord b) 0)))
              (Z.land (ord a) 15 =? Z.land (ord b) 15)) all_ascii) all_ascii = true)
    by (vm_compute; reflexivity).
  apply Bool.eqb_prop. exact (ascii_forallb2 _ Hall a b).
Qed.

(** X11.  With one partial byte the comparison is between two padding
    characters: partial verification accepts every password for every
    entry made by [_polyhash_entry] or [_encrypt_entry]. *)
Theorem partial_verify_one_byte_accepts_all (password salt stored : str) (n k : Z)
        (password' salt' : str) (iters : iter_arg) (h' : str) (w0 w : World) :
  partialbytes self = 1 ->
  fst (_polyhash_entry self password salt n w0) = Ok stored
  \/ fst (_encrypt_entry self password salt w0) = Ok stored ->
  digest password' (Some salt') iters = Ok h' ->
  fst (_partial_verify self password' salt' stored iters k w) = Ok true.
Proof.
  intros HP Hentry Hd.
  destruct (entry_suffix _ _ _ _ _ Hentry) as (Hpos & x & ->).
  rewrite _partial_verify_unfold, Hd.
  assert (Hlen' : length h' = 32%nat).
  { destruct (digest_ok_inv _ _ _ _ Hd) as (i & _ & -> & _). apply pbkdf2_F_length. }
  destruct (b64encode_digest_tail h' Hlen') as [front Hfront].
  set (h := pbkdf2_F password salt (iterations self)).
  assert (Hlen : length h = 32%nat) by apply pbkdf2_F_length.
  rewrite (partial_suffix_skipn h) by (unfold len; lia).
  unfold len. rewrite HP, Hlen.
  change (Z.to_nat (Z.of_nat 32 - 1)) with 31%nat.
  rewrite (skipn_last_one "000"%char 31 h Hlen).
  unfold b64enc. rewrite Hfront. cbn [b64encode].
  unfold partial_suffix. rewrite HP.
  replace (front ++ [table_b2a (sextet3 (ord (nth 31 h' "000"%char)) 0); "="%char])
    with ((front ++ [table_b2a (sextet3 (ord (nth 31 h' "000"%char)) 0)]) ++ ["="%char])
    by now rewrite <- app_assoc.
  rewrite (slice_from_tail _ ["="%char] 1) by (unfold len; cbn; lia).
  match goal with |- context [x ++ ?a :: ?b :: ?c :: ?d] =>
    replace (x ++ a :: b :: c :: d) with ((x ++ [a; b; c]) ++ d)
      by now rewrite <- app_assoc end.
  rewrite (slice_from_tail _ ["="%char] 1) by (unfold len; cbn; lia).
  reflexivity.
Qed.

(** X12.  With two partial bytes the comparison is between the last two base64
    characters, a padding character and the one before it: partial
    verification accepts a password exactly when the low four bits of the
    last byte of its digest are those of the entry's digest. *)
Theorem partial_verify_two_bytes_four_bits (password salt stored : str) (n k : Z)
        (password' salt' : str) (iters : iter_arg) (h' : str) (w0 w : World) :
  partialbytes self = 2 ->
  fst (_polyhash_entry self password salt n w0) = Ok stored
  \/ fst (_encrypt_entry self password salt w0) = Ok stored ->
  digest password' (Some salt') iters = Ok h' ->
  fst (_partial_verify self password' salt' stored iters k w)
  = Ok (Z.land (ord (nth 31 h' "000"%char)) 15
        =? Z.land (ord (nth 31 (pbkdf2_F password salt (iterations self)) "000"%char)) 15).
Proof.
  intros HP Hentry Hd.
  destruct (entry_suffix _ _ _ _ _ Hentry) as (Hpos & x & ->).
  rewrite _partial_verify_unfold, Hd.
  assert (Hlen' : length h' = 32%nat).
  { destruct (digest_ok_inv _ _ _ _ Hd) as (i & _ & -> & _). apply pbkdf2_F_length. }
  destruct (b64encode_digest_tail h' Hlen') as [front Hfront].
  set (h := pbkdf2_F password salt (iterations self)).
  assert (Hlen : length h = 32%nat) by apply pbkdf2_F_length.
  rewrite (partial_suffix_skipn h) by (unfold len; lia).
  unfold len. rewrite HP, Hlen.
  change (Z.to_nat (Z.of_nat 32 - 2)) with 30%nat.
  rewrite (skipn_last_two "000"%char 30 h Hlen).
  unfold b64enc. rewrite Hfront. cbn [b64encode].
  unfold partial_suffix. rewrite HP.
  rewrite (slice_from_tail front [_; _] 2) by (unfold len; cbn; lia).
  match goal with |- context [x ++ ?a :: ?b :: ?c :: ?d] =>
    replace (x ++ a :: b :: c :: d) with ((x ++ [a; b]) ++ c :: d)
      by now rewrite <- app_assoc end.
  rewrite (slice_from_tail _ [_; _] 2) by (unfold len; cbn; lia).
  unfold len. cbn [length].
  change (Z.to_nat (Z.of_nat 2 - 2)) with 0%nat.
  cbn [skipn constant_time_compare].
  rewrite sextet3_low_bits.
  change (ascii_eqb "=" "=") with true. cbn [andb].
  destruct (_ =? _); reflexivity.
Qed.

(** ** Locked-mode logins *)


(** ** Entries [verify] cannot read *)

Lemma split_at_length (sep : ascii) (s : str) :
  forall (m : nat) (cur : str),
    length (split_at sep m cur s) = S (Nat.min m (count_occ ascii_dec s sep)).
Proof.
  induction s as [|x r IH]; intros m cur.
  - cbn. now rewrite Nat.min_0_r.
  - cbn [split_at count_occ]. destruct m as [|m]; [reflexivity|].
    unfold ascii_eqb. destruct (Ascii.eqb_spec x sep) as [->|Hne].
    + destruct (ascii_dec sep sep) as [_|Hc]; [|now elim Hc].
      cbn [length]. now rewrite IH, <- Nat.succ_min_distr.
    + destruct (ascii_dec x sep) as [Hc|_]; [now elim Hne|]. apply IH.
Qed.

(** X8.  [verify] reloads the state, then raises [ValueError] on an entry
    with fewer than four dollars, [AssertionError] on an entry of
    another algorithm, and [ValueError] on a share number that is no
    integer; nothing else of the engine is touched. *)
Theorem verify_rejects_malformed (password encoded : str) (w : World) :
  ((count_occ ascii_dec encoded "$"%char < 4)%nat ->
   verify self password encoded w = (Raise ValueError, entered w))
  /\ (forall a sn it salt h,
        split "$" 4 encoded = [a; sn; it; salt; h] ->
        a <> algorithm ->
        verify self password encoded w = (Raise AssertionError, entered w))
  /\ (forall sn it salt h,
        split "$" 4 encoded = [algorithm; sn; it; salt; h] ->
        startswith "-" sn = false ->
        py_int sn = None ->
        verify self password encoded w = (Raise ValueError, entered w)).
Proof.
  repeat split.
  - intros Hcount. unfold verify.
    rewrite (bind_ok _ _ _ _ _ (load_if_locked_entered w)).
    pose proof (split_at_length "$" encoded 4 []) as Hl. fold (split "$" 4 encoded) in Hl.
    destruct (split "$" 4 encoded) as [|f1 [|f2 [|f3 [|f4 [|f5 [|f6 fs]]]]]];
      try reflexivity; cbn [length] in Hl; lia.
  - intros a sn it salt h Hsplit Ha. unfold verify.
    rewrite (bind_ok _ _ _ _ _ (load_if_locked_entered w)), Hsplit.
    assert (Halg : str_eqb a algorithm = false).
    { destruct (str_eqb a algorithm) eqn:E; [|reflexivity].
      apply str_eqb_eq in E. contradiction. }
    now rewrite Halg.
  - intros sn it salt h Hsplit Hneg Hn.
    now rewrite (verify_parsed self _ _ _ _ _ _ w Hsplit), Hneg, Hn.
Qed.

(** ** Candidate shares *)

Lemma xor_char_inj (a b c : ascii) : xor_char a b = xor_char a c -> b = c.
Proof.
  intros Heq. rewrite <- (xor_char_cancel a b), Heq. apply xor_char_cancel.
Qed.

Lemma xor_str_inj (a : str) :
  forall b c : str,
    length a = length b -> length a = length c ->
    xor_str a b = xor_str a c -> b = c.
Proof.
  induction a as [|x a IH]; intros [|y b] [|z c] Hb Hc Heq; try discriminate.
  - reflexivity.
  - cbn [xor_str] in Heq. injection Heq as Hx Hr.
    apply xor_char_inj in Hx. subst z. f_equal.
    apply IH; [now injection Hb|now injection Hc|exact Hr].
Qed.

(** X13.  The candidate share read from a threshold entry with some password
    is the stored mask XORed with that password's digest: it is the share
    the entry was made with exactly when the digest is the one of the
    entry's password. *)
Theorem candidate_share_exact (password salt stored : str) (n m : Z) (obj : shamir)
        (y : str) (w0 : World) (password' salt' : str) (iters : iter_arg) (h' : str) :
  shamirsecretobj (data w0) = Some obj ->
  fst (_polyhash_entry self password salt n w0) = Ok stored ->
  compute_share obj n = Ok (m, y) ->
  length y = 32%nat ->
  partialbytes self <= 32 ->
  digest password' (Some salt') iters = Ok h' ->
  let h := pbkdf2_F password salt (iterations self) in
  _get_share_from_hash self password' salt' stored iters
  = Ok (xor_str (xor_str h y) h')
  /\ (xor_str (xor_str h y) h' = y <-> h' = h).
Proof.
  intros Hobj Hstored Hshare Hy HP Hd'. cbv zeta.
  unfold _polyhash_entry, bind, gets, lift, ret in Hstored.
  rewrite Hobj in Hstored.
  destruct (digest password (Some salt) (IterInt (iterations self))) as [h|e] eqn:Hd;
    [|discriminate].
  rewrite Hshare in Hstored. cbn [snd] in Hstored.
  destruct (digest_ok_inv _ _ _ _ Hd) as (i & Hi & Hh & <-).
  cbn [force_bytes] in Hh. rewrite <- Hh.
  assert (Hlen : length h = 32%nat) by (subst h; apply pbkdf2_F_length).
  assert (Hlen' : length h' = 32%nat).
  { destruct (digest_ok_inv _ _ _ _ Hd') as (j & _ & -> & _). apply pbkdf2_F_length. }
  rewrite do_bytearray_xor_same_length in Hstored by congruence.
  cbn in Hstored. injection Hstored as <-.
  assert (Hxl : length (xor_str h y) = 32%nat) by (rewrite xor_str_length; congruence).
  split.
  - unfold _get_share_from_hash, binary_type. rewrite Hd'. unfold result_bind.
    assert (HPs : partialbytes self <= len (b64enc (partial_suffix self h))).
    { unfold len, b64enc.
      pose proof (b64encode_length_ge (partial_suffix self h)).
      assert (partialbytes self <= len h) by (unfold len; lia).
      pose proof (partial_suffix_length self h ltac:(assumption)). unfold len in *. lia. }
    destruct (stored_prefix self (bin64enc (xor_str h y)) _ HPs) as [junk ->].
    unfold bin64enc. rewrite b64decode_b64encode_padded.
    + now rewrite do_bytearray_xor_same_length by congruence.
    + now rewrite Hxl.
  - split.
    + intros Heq. rewrite <- (xor_str_cancel h y) in Heq at 2 by congruence.
      apply xor_str_inj in Heq; congruence.
    + intros ->. apply xor_str_cancel. congruence.
Qed.

(** ** [encode] on an unlocked engine *)

(** X5.  On an unlocked engine the hash in the entry does not depend on the
    iteration count given to [encode] (the count of the hasher is used);
    the count given is only written into the entry. *)
Theorem encode_unlocked_ignores_iterations (password salt : str)
        (iters1 iters2 : option Z) (w : World) (out1 out2 : str) :
  is_unlocked (data (entered w)) = true ->
  is_Some_b (thresholdlesskey (data (entered w))) = true ->
  fst (encode self password salt iters1 w) = Ok out1 ->
  fst (encode self password salt iters2 w) = Ok out2 ->
  exists share passhash : str,
    out1 = format_entry share (encode_iterations self iters1) (encode_salt salt) passhash
    /\ out2 = format_entry share (encode_iterations self iters2) (encode_salt salt) passhash.
Proof.
  intros Hu Hkey. rewrite !encode_unfold. cbv zeta. rewrite Hu, Hkey. cbn [negb orb].
  match goal with |- context [match fst ?m with Ok _ => _ | Raise _ => _ end] =>
    destruct (fst m) as [ph|e] end; [|discriminate].
  cbn [fst]. intros [= <-] [= <-]. now eexists _, _.
Qed.

(** ** The audit after an unlock *)



(** ** The defaults *)

(** X6.  [load] binds [data] to the very dictionary [defaults] when the cache
    holds no state: on such a locked process, an [encode] whose salt holds
    a dollar increments the share counter of [defaults] as well, so the
    "defaults" a later [load] falls back on are no longer the initial
    ones. *)
Theorem encode_writes_to_defaults (password salt : str) (iters : option Z) (w : World) :
  is_unlocked (data w) = false ->
  c_hasher (cache w) = None ->
  contains "$" salt = true ->
  nextavailableshare (defaults (snd (encode self password salt iters w)))
  = nextavailableshare (defaults w) + 1
  /\ defaults (snd (encode self password salt iters w))
     = data (snd (encode self password salt iters w)).
Proof.
  intros Hu Hnone Hs.
  destruct (encode_world password salt iters w) as (Hd & _ & Hf).
  rewrite Hs in Hd, Hf. rewrite Hd, Hf.
  unfold allocated, entered. rewrite Hu, Hnone. cbn. auto.
Qed.

End HasherFacts.

(** * The claims on concrete inputs *)

Local Abbreviation W := (World Shamir.t).

(** The two accounts unlock a fresh, locked process, and one does not. *)
Example two_accounts_unlock :
  is_unlocked (data (verify_all demo_hasher [(lit "pw1", demo_entry1)]
                                (initial_world 5 [])))
  = false
  /\ is_unlocked (data (verify_all demo_hasher
                          [(lit "pw1", demo_entry1); (lit "pw2", demo_entry2)]
                          (initial_world 5 [])))
     = true.
Proof. split; vm_compute; reflexivity. Qed.





(** C2 on the buffer the spec describes: 252 bytes followed by the first
    four characters of the base64 text of their SHA-256 are rejected. *)
Lemma verify_secret_sha256_counterexample :
  len sha256_fingerprinted = 256
  /\ skipn 252 sha256_fingerprinted
     = firstn 4 (b64encode (SHA256.digest (firstn 252 sha256_fingerprinted)))
  /\ verify_secret (PolyPasswordHasher_class 3 2 256 4) sha256_fingerprinted = Ok false.
Proof. repeat split; vm_compute; reflexivity. Qed.

(** C2, amended, on the example secret: it is accepted, and it is the
    PBKDF2 fingerprint that makes it so. *)
Lemma verify_secret_fingerprint_witness :
  verify_secret demo_hasher demo_secret = Ok true
  <-> skipn 28 demo_secret
      = firstn 4 (b64enc (pbkdf2_F (firstn 28 demo_secret) (lit "None") 1)).
Proof.
  refine (proj1 (verify_secret_fingerprint demo_hasher demo_secret _ _)).
  - vm_compute. reflexivity.
  - vm_compute. split; discriminate.
Defined.

(** C3 on a salt that is not wrapped in dollars but contains one: a share
    number is allocated all the same. *)
Lemma encode_unwrapped_salt_counterexample :
  wrapped_in_dollars (lit "a$b") = false
  /\ fst (encode demo_hasher (lit "pw") (lit "a$b") None (initial_world 0 [] : W))
     = Ok (lit "pph$-1$1$a$b$snfWVjWYqQbOWeCqWfYt1yNtIVinNB0wBOBGUz14htY=")
  /\ nextavailableshare
       (data (snd (encode demo_hasher (lit "pw") (lit "a$b") None (initial_world 0 [] : W))))
     = 2
  /\ nextavailableshare (data (initial_world 0 [] : W)) = 1.
Proof. repeat split; vm_compute; reflexivity. Qed.

(** C3, amended, on a wrapped salt. *)
Lemma encode_share_allocation_witness :
  nextavailableshare
    (data (snd (encode demo_hasher (lit "pw") (lit "$a$") None (initial_world 0 [] : W))))
  = nextavailableshare (data (entered (initial_world 0 [] : W)))
    + (if contains "$" (lit "$a$") then 1 else 0).
Proof.
  exact (proj1 (encode_share_allocation demo_hasher (lit "pw") (lit "$a$") None
                  (initial_world 0 []))).
Defined.

(** C4 on the first account. *)
Lemma share_recovered_from_polyhash_witness :
  _get_share_from_hash demo_hasher (lit "pw1") (lit "a") demo_stored1 (IterStr (lit "1"))
  = Ok (demo_share 1).
Proof.
  refine (share_recovered_from_polyhash demo_hasher (lit "pw1") (lit "a") demo_stored1
            1 1 demo_shamir (demo_share 1) (IterStr (lit "1")) demo_unlocked_world
            _ _ _ _ _ _).
  - reflexivity.
  - vm_compute. reflexivity.
  - vm_compute. reflexivity.
  - vm_compute. reflexivity.
  - vm_compute. discriminate.
  - vm_compute. reflexivity.
Defined.

Lemma demo_wrong_share :
  repeat "x"%char 32
  <> ok_or_empty (_get_share_from_hash demo_hasher (lit "wrong") (lit "a") demo_stored1
                    (IterStr (lit "1"))).
Proof.
  intros Heq. apply (f_equal (str_eqb (repeat "x"%char 32))) in Heq.
  vm_compute in Heq. discriminate.
Defined.

(** C5 on the engine that holds another candidate for share number 1. *)
Lemma verify_cached_share_conflict_witness :
  verify demo_hasher (lit "wrong") demo_entry1 demo_conflict_world
  = (Raise (Exception "Cached share does not match the new  share value!"),
     entered demo_conflict_world)
  /\ cache (entered demo_conflict_world) = cache demo_conflict_world.
Proof.
  refine (proj1 (verify_cached_share_conflict demo_hasher (lit "wrong") demo_entry1
                   (lit "1") (lit "1") (lit "a") demo_stored1 1 demo_conflict_world
                   (ok_or_empty (_get_share_from_hash demo_hasher (lit "wrong") (lit "a")
                                   demo_stored1 (IterStr (lit "1"))))
                   (repeat "x"%char 32) _ _ _ _ _ _ _) demo_wrong_share).
  - vm_compute. reflexivity.
  - vm_compute. reflexivity.
  - vm_compute. reflexivity.
  - discriminate.
  - vm_compute. reflexivity.
  - vm_compute. reflexivity.
  - vm_compute. reflexivity.
Defined.

(** C6 on that engine: the entry has share number 1 and the engine is
    locked, yet [verify] neither returns what [_partial_verify] answers
    (partial bytes enabled) nor raises [LockedException] (partial bytes
    disabled): the cached-share mismatch is raised first. *)
Lemma verify_locked_conflict_counterexample :
  fst (verify demo_hasher (lit "wrong") demo_entry1 demo_conflict_world)
  = Raise (Exception "Cached share does not match the new  share value!")
  /\ fst (_partial_verify demo_hasher (lit "wrong") (lit "a") demo_stored1
            (IterStr (lit "1")) 1 (entered demo_conflict_world))
     = Ok true
  /\ fst (verify demo_hasher_nopartial (lit "wrong") demo_entry1 demo_conflict_world)
     = Raise (Exception "Cached share does not match the new  share value!")
  /\ is_unlocked (data (entered demo_conflict_world)) = false
  /\ secret (data (entered demo_conflict_world)) = None.
Proof. repeat split; vm_compute; reflexivity. Qed.

(** C6, amended, on a fresh locked engine and the first account: the
    candidate-share step completes, and [verify] answers what
    [_partial_verify] answers on the engine that step leaves. *)
Lemma verify_locked_outcome_witness :
  verify demo_hasher (lit "pw1") demo_entry1 (initial_world 0 [] : W)
  = if 0 <? partialbytes demo_hasher
    then _partial_verify demo_hasher (lit "pw1") (lit "a") demo_stored1
           (IterStr (lit "1")) 1
           (snd (cache_share demo_hasher (lit "pw1") (lit "a") demo_stored1
                   (IterStr (lit "1")) 1 (entered (initial_world 0 []))))
    else (Raise LockedException,
          snd (cache_share demo_hasher (lit "pw1") (lit "a") demo_stored1
                 (IterStr (lit "1")) 1 (entered (initial_world 0 [])))).
Proof.
  refine (proj1 (verify_locked_outcome demo_hasher (lit "pw1") demo_entry1
                   (lit "1") (lit "1") (lit "a") demo_stored1 1 (initial_world 0 [])
                   _ _ _ _ _)
                (snd (cache_share demo_hasher (lit "pw1") (lit "a") demo_stored1
                        (IterStr (lit "1")) 1 (entered (initial_world 0 [])))) _).
  - vm_compute. reflexivity.
  - vm_compute. reflexivity.
  - vm_compute. reflexivity.
  - vm_compute. discriminate.
  - vm_compute. reflexivity.
  - vm_compute. reflexivity.
Defined.

(** C7 on the engine whose two candidates recombine to a secret without
    fingerprint. *)
Lemma recombine_fingerprint_failure_witness :
  exists w' : W,
    _recombine demo_hasher demo_bad_shares_world
    = (Raise (Exception "Couldn't recombine store!"), w')
    /\ is_unlocked (data w') = is_unlocked (data demo_bad_shares_world)
    /\ thresholdlesskey (data w') = thresholdlesskey (data demo_bad_shares_world)
    /\ cache w' = cache demo_bad_shares_world.
Proof.
  refine (recombine_fingerprint_failure demo_hasher demo_bad_shares_world [1; 2]
            [(1, repeat "x"%char 32); (2, repeat "y"%char 32)] demo_bad_recovered
            (ok_or_empty (match secretdata demo_bad_recovered with
                          | Some s => Ok s
                          | None => Raise TypeError
                          end)) _ _ _ _ _).
  - reflexivity.
  - vm_compute. reflexivity.
  - vm_compute. reflexivity.
  - vm_compute. reflexivity.
  - vm_compute. reflexivity.
Defined.

(** C8 on a locked-mode entry, verified on an unlocked engine. *)
Lemma verify_locked_mode_entry_witness :
  exists w' : W,
    verify demo_hasher (lit "pw") demo_locked_entry demo_unlocked_world
    = (Ok (constant_time_compare (b64enc (pbkdf2_F (lit "pw") (lit "salt") 1))
             (lit "b0rYx47DZcBg5kjraU7kDepYSEsDcfvWFxWsRBC3OAo=")), w')
    /\ data w' = data (entered demo_unlocked_world)
    /\ cache w' = cache demo_unlocked_world.
Proof.
  refine (verify_locked_mode_entry demo_hasher (lit "pw") demo_locked_entry
            (lit "-0") (lit "1") (lit "salt")
            (lit "b0rYx47DZcBg5kjraU7kDepYSEsDcfvWFxWsRBC3OAo=") 1 demo_unlocked_world
            _ _ _ _).
  - vm_compute. reflexivity.
  - reflexivity.
  - vm_compute. reflexivity.
  - reflexivity.
Defined.

(** C9 on a fresh locked engine and a wrapped salt. *)
Lemma encode_locked_entry_witness :
  exists w' : W,
    encode demo_hasher (lit "pw") (lit "$a$") None (initial_world 0 [])
    = (Ok (format_entry
             ("-"%char :: decimal (encode_sharenumber (lit "$a$") (initial_world 0 [] : W)))
             (encode_iterations demo_hasher None) (encode_salt (lit "$a$"))
             (b64enc (pbkdf2_F (lit "pw") (encode_salt (lit "$a$"))
                               (encode_iterations demo_hasher None)))), w')
    /\ startswith "-"
         (nth 1 (split "$" 4
                   (format_entry
                      ("-"%char :: decimal (encode_sharenumber (lit "$a$")
                                              (initial_world 0 [] : W)))
                      (encode_iterations demo_hasher None) (encode_salt (lit "$a$"))
                      (b64enc (pbkdf2_F (lit "pw") (encode_salt (lit "$a$"))
                                        (encode_iterations demo_hasher None))))) [])
       = true.
Proof.
  refine (encode_locked_entry demo_hasher (lit "pw") (lit "$a$") None
            (initial_world 0 []) _ _).
  - left. reflexivity.
  - reflexivity.
Defined.

(** C10 on the hasher without partial bytes: any stored hash passes. *)
Lemma partial_verify_vacuous_witness :
  _partial_verify demo_hasher_nopartial (lit "pw") (lit "salt") (lit "anything")
                  (IterInt 1) 0 (initial_world 0 [] : W)
  = (Ok true,
     partial_recorded (lit "anything") 0
                      (b64enc (pbkdf2_F (lit "pw") (lit "salt") 1))
                      (initial_world 0 [])).
Proof.
  refine (proj1 (proj1 (partial_verify_vacuous_when_disabled demo_hasher_nopartial _)
                   (lit "pw") (lit "salt") (lit "anything") (IterInt 1) 0
                   (initial_world 0 []) (pbkdf2_F (lit "pw") (lit "salt") 1) _)).
  - reflexivity.
  - reflexivity.
Defined.

(** * The further properties on concrete inputs *)

(** X3 on the locked-mode entry of the password [pw]: made with the hasher's own
    iteration count, it needs no update. *)
Lemma must_update_of_encode_witness :
  must_update demo_hasher demo_locked_entry
  = Ok (negb (encode_iterations demo_hasher None =? iterations demo_hasher)).
Proof.
  refine (must_update_of_encode demo_hasher (lit "pw") (lit "salt") None
            (initial_world 0 [] : W) demo_locked_entry _).
  vm_compute. reflexivity.
Defined.

(** X1 on a fresh locked engine and a salt wrapped in dollars. *)
Lemma encode_verify_locked_witness :
  exists out,
    fst (encode demo_hasher (lit "pw") (lit "$a$") None (initial_world 0 [] : W)) = Ok out
    /\ forall (w2 : W),
         fst (verify demo_hasher (lit "pw") out w2) = Ok true
         /\ forall password',
              fst (verify demo_hasher password' out w2) = Ok true
              <-> pbkdf2_F password' (encode_salt (lit "$a$"))
                           (encode_iterations demo_hasher None)
                  = pbkdf2_F (lit "pw") (encode_salt (lit "$a$"))
                             (encode_iterations demo_hasher None).
Proof.
  refine (encode_verify_locked demo_hasher (lit "pw") (lit "$a$") None
            (initial_world 0 []) _ _ _).
  - left. reflexivity.
  - reflexivity.
  - reflexivity.
Defined.

(** X2 on the unlocked engine and a threshold entry. *)
Lemma encode_verify_unlocked_witness :
  fst (verify demo_hasher (lit "pw")
         (ok_or_empty (fst (encode demo_hasher (lit "pw") (lit "$a$") None
                              demo_unlocked_world)))
         (snd (encode demo_hasher (lit "pw") (lit "$a$") None demo_unlocked_world)))
  = Ok true.
Proof.
  refine (encode_verify_unlocked demo_hasher (lit "pw") (lit "$a$") None
            demo_unlocked_world _ _ _ _ _ _ _ _ _).
  - reflexivity.
  - reflexivity.
  - reflexivity.
  - vm_compute. discriminate.
  - reflexivity.
  - reflexivity.
  - vm_compute. reflexivity.
Defined.

(** X4 on two accounts created in a row on a fresh locked engine. *)
Lemma encode_share_numbers_consecutive_witness :
  exists k1 k2 : Z,
    py_int (nth 1 (split "$" 4
                     (ok_or_empty (fst (encode demo_hasher (lit "pw1") (lit "$a$") None
                                          (initial_world 0 [] : W))))) []) = Some k1
    /\ py_int (nth 1 (split "$" 4
                        (ok_or_empty
                           (fst (encode demo_hasher (lit "pw2") (lit "$b$") None
                                   (snd (encode demo_hasher (lit "pw1") (lit "$a$") None
                                           (initial_world 0 [] : W))))))) []) = Some k2
    /\ Z.abs k1 = nextavailableshare (data (entered (initial_world 0 [] : W)))
    /\ Z.abs k2 = nextavailableshare (data (entered (initial_world 0 [] : W))) + 1.
Proof.
  refine (encode_share_numbers_consecutive demo_hasher (lit "pw1") (lit "$a$")
            (lit "pw2") (lit "$b$") None None (initial_world 0 []) _ _ _ _ _ _ _).
  - reflexivity.
  - reflexivity.
  - vm_compute. discriminate.
  - vm_compute. reflexivity.
  - vm_compute. reflexivity.
Defined.

(** X7 on the locked-mode entry of the password [pw]. *)
Lemma safe_summary_masks_witness :
  exists msalt mhash : str,
    safe_summary demo_locked_entry
    = Ok [(lit "algorithm", algorithm); (lit "sharenumber", lit "-0");
          (lit "iterations", lit "1"); (lit "salt", msalt); (lit "hash", mhash)]
    /\ length msalt = length (lit "salt")
    /\ length mhash = length (lit "b0rYx47DZcBg5kjraU7kDepYSEsDcfvWFxWsRBC3OAo=")
    /\ (forall i : nat,
          (i < length (lit "salt"))%nat ->
          nth i msalt "*"%char
          = if (i <? 6)%nat then nth i (lit "salt") "*"%char else "*"%char)
    /\ (forall i : nat,
          (i < length (lit "b0rYx47DZcBg5kjraU7kDepYSEsDcfvWFxWsRBC3OAo="))%nat ->
          nth i mhash "*"%char
          = if (i <? 6)%nat
            then nth i (lit "b0rYx47DZcBg5kjraU7kDepYSEsDcfvWFxWsRBC3OAo=") "*"%char
            else "*"%char).
Proof.
  refine (safe_summary_masks demo_locked_entry (lit "-0") (lit "1") (lit "salt")
            (lit "b0rYx47DZcBg5kjraU7kDepYSEsDcfvWFxWsRBC3OAo=") _).
  vm_compute. reflexivity.
Defined.

(** X14 on the unlocked engine, with a cipher that answers. *)
Lemma update_hash_thresholdless_of_locked_witness :
  update_hash_thresholdless (H0 := aes_standin) demo_hasher
    (b64enc (pbkdf2_F (lit "pw") (lit "salt") (iterations demo_hasher)))
    demo_unlocked_world
  = _encrypt_entry (H0 := aes_standin) demo_hasher (lit "pw") (lit "salt")
                   demo_unlocked_world.
Proof.
  refine (update_hash_thresholdless_of_locked (H0 := aes_standin) demo_hasher
            (lit "pw") (lit "salt") demo_secret demo_unlocked_world _ _).
  - reflexivity.
  - reflexivity.
Defined.

(** X15 on the unlocked engine. *)
Lemma update_hash_threshold_of_locked_witness :
  update_hash_threshold demo_hasher
    (b64enc (pbkdf2_F (lit "pw") (lit "salt") (iterations demo_hasher)))
    demo_unlocked_world
  = match fst (_polyhash_entry demo_hasher (lit "pw") (lit "salt")
                 (nextavailableshare (data demo_unlocked_world)) demo_unlocked_world) with
    | Ok passhash =>
        (Ok (passhash, nextavailableshare (data demo_unlocked_world)),
         allocated demo_unlocked_world)
    | Raise e => (Raise e, allocated demo_unlocked_world)
    end.
Proof.
  refine (update_hash_threshold_of_locked demo_hasher (lit "pw") (lit "salt")
            demo_shamir demo_unlocked_world _ _).
  - reflexivity.
  - reflexivity.
Defined.

(** X16 on an unlocked engine with one user to upgrade: the sweep raises. *)
Lemma update_locked_hashes_never_upgrades_witness :
  exists e, fst (_update_locked_hashes demo_hasher demo_upgrade_world) = Raise e.
Proof.
  refine (proj2 (update_locked_hashes_never_upgrades demo_hasher demo_upgrade_world)
            demo_locked_user (lit "pph") (lit "-0") (lit "1") (lit "salt")
            (lit "b0rYx47DZcBg5kjraU7kDepYSEsDcfvWFxWsRBC3OAo=") _ _ _ _).
  - left. reflexivity.
  - vm_compute. discriminate.
  - vm_compute. reflexivity.
  - reflexivity.
Defined.

(** X17 on the two candidate shares and one user to upgrade. *)
Lemma recombine_interrupted_by_sweep_witness :
  exists (e : exn) (w' : W),
    _recombine demo_hasher (demo_shares_world [demo_locked_user]) = (Raise e, w')
    /\ unlocked_with demo_secret (data w')
    /\ last_unlocked (data w')
       = last_unlocked (data (demo_shares_world [demo_locked_user]))
    /\ c_hasher (cache w') = c_hasher (cache (demo_shares_world [demo_locked_user]))
    /\ c_shares (cache w') = c_shares (cache (demo_shares_world [demo_locked_user])).
Proof.
  refine (recombine_interrupted_by_sweep demo_hasher (demo_shares_world [demo_locked_user])
            [1; 2] [(1, demo_share 1); (2, demo_share 2)] demo_recovered demo_secret
            demo_locked_user (lit "pph") (lit "-0") (lit "1") (lit "salt")
            (lit "b0rYx47DZcBg5kjraU7kDepYSEsDcfvWFxWsRBC3OAo=")
            _ _ _ _ _ _ _ _ _).
  - reflexivity.
  - vm_compute. reflexivity.
  - vm_compute. reflexivity.
  - vm_compute. reflexivity.
  - vm_compute. reflexivity.
  - left. reflexivity.
  - vm_compute. discriminate.
  - vm_compute. reflexivity.
  - reflexivity.
Defined.

(** X18 on the two candidate shares and no user. *)
Lemma recombine_persists_witness :
  exists w' : W,
    _recombine demo_hasher (demo_shares_world []) = (Ok tt, w')
    /\ unlocked_with demo_secret (data w')
    /\ shamirsecretobj (data w') = Some demo_recovered
    /\ nextavailableshare (data w') = nextavailableshare (data (demo_shares_world []))
    /\ last_unlocked (data w') = clock (demo_shares_world [])
    /\ c_hasher (cache w') = Some (data w')
    /\ c_shares (cache w') = c_shares (cache (demo_shares_world [])).
Proof.
  refine (recombine_persists demo_hasher (demo_shares_world [])
            [1; 2] [(1, demo_share 1); (2, demo_share 2)] demo_recovered demo_secret
            _ _ _ _ _ _ _).
  - reflexivity.
  - vm_compute. reflexivity.
  - vm_compute. reflexivity.
  - vm_compute. reflexivity.
  - vm_compute. reflexivity.
  - reflexivity.
  - intros u [].
Defined.

(** X9 on the first account, with two partial bytes. *)
Lemma partial_verify_accepts_entry_witness :
  fst (_partial_verify demo_hasher (lit "pw1") (lit "a") demo_stored1
         (IterStr (lit "1")) 1 (initial_world 0 [] : W))
  = Ok true.
Proof.
  refine (partial_verify_accepts_entry demo_hasher (lit "pw1") (lit "a") demo_stored1
            1 1 (IterStr (lit "1")) demo_unlocked_world (initial_world 0 [])
            _ _ _ _).
  - vm_compute. split; discriminate.
  - reflexivity.
  - left. vm_compute. reflexivity.
  - vm_compute. reflexivity.
Defined.

(** X11 on an entry of the first account made with one partial byte, and
    another password. *)
Lemma partial_verify_one_byte_accepts_all_witness :
  fst (_partial_verify demo_hasher_onebyte (lit "wrong") (lit "a")
         (ok_or_empty (fst (_polyhash_entry demo_hasher_onebyte (lit "pw1") (lit "a") 1
                              demo_unlocked_world)))
         (IterStr (lit "1")) 1 (initial_world 0 [] : W))
  = Ok true.
Proof.
  refine (partial_verify_one_byte_accepts_all demo_hasher_onebyte (lit "pw1") (lit "a")
            (ok_or_empty (fst (_polyhash_entry demo_hasher_onebyte (lit "pw1") (lit "a") 1
                                 demo_unlocked_world)))
            1 1 (lit "wrong") (lit "a") (IterStr (lit "1"))
            (pbkdf2_F (lit "wrong") (lit "a") 1)
            demo_unlocked_world (initial_world 0 []) _ _ _).
  - reflexivity.
  - left. vm_compute. reflexivity.
  - vm_compute. reflexivity.
Defined.

(** X12 on the first account and another password. *)
Lemma partial_verify_two_bytes_four_bits_witness :
  fst (_partial_verify demo_hasher (lit "wrong") (lit "a") demo_stored1
         (IterStr (lit "1")) 1 (initial_world 0 [] : W))
  = Ok (Z.land (ord (nth 31 (pbkdf2_F (lit "wrong") (lit "a") 1) "000"%char)) 15
        =? Z.land (ord (nth 31 (pbkdf2_F (lit "pw1") (lit "a") (iterations demo_hasher))
                          "000"%char)) 15).
Proof.
  refine (partial_verify_two_bytes_four_bits demo_hasher (lit "pw1") (lit "a")
            demo_stored1 1 1 (lit "wrong") (lit "a") (IterStr (lit "1"))
            (pbkdf2_F (lit "wrong") (lit "a") 1)
            demo_unlocked_world (initial_world 0 []) _ _ _).
  - reflexivity.
  - left. vm_compute. reflexivity.
  - vm_compute. reflexivity.
Defined.


(** X8 on an entry of three fields. *)
Lemma verify_rejects_malformed_witness :
  verify demo_hasher (lit "pw") (lit "pph$1$x") (initial_world 0 [] : W)
  = (Raise ValueError, entered (initial_world 0 [])).
Proof.
  refine (proj1 (verify_rejects_malformed demo_hasher (lit "pw") (lit "pph$1$x")
                   (initial_world 0 [])) _).
  vm_compute. lia.
Defined.

(** X13 on the first account and another password. *)
Lemma candidate_share_exact_witness :
  _get_share_from_hash demo_hasher (lit "wrong") (lit "a") demo_stored1 (IterStr (lit "1"))
  = Ok (xor_str (xor_str (pbkdf2_F (lit "pw1") (lit "a") (iterations demo_hasher))
                         (demo_share 1))
                (pbkdf2_F (lit "wrong") (lit "a") 1))
  /\ (xor_str (xor_str (pbkdf2_F (lit "pw1") (lit "a") (iterations demo_hasher))
                       (demo_share 1))
              (pbkdf2_F (lit "wrong") (lit "a") 1)
      = demo_share 1
      <-> pbkdf2_F (lit "wrong") (lit "a") 1
          = pbkdf2_F (lit "pw1") (lit "a") (iterations demo_hasher)).
Proof.
  refine (candidate_share_exact demo_hasher (lit "pw1") (lit "a") demo_stored1 1 1
            demo_shamir (demo_share 1) demo_unlocked_world (lit "wrong") (lit "a")
            (IterStr (lit "1")) (pbkdf2_F (lit "wrong") (lit "a") 1) _ _ _ _ _ _).
  - reflexivity.
  - vm_compute. reflexivity.
  - vm_compute. reflexivity.
  - vm_compute. reflexivity.
  - vm_compute. discriminate.
  - vm_compute. reflexivity.
Defined.

(** X5 on the unlocked engine, with the default count and with 5. *)
Lemma encode_unlocked_ignores_iterations_witness :
  exists share passhash : str,
    ok_or_empty (fst (encode demo_hasher (lit "pw") (lit "$a$") None demo_unlocked_world))
    = format_entry share (encode_iterations demo_hasher None)
                   (encode_salt (lit "$a$")) passhash
    /\ ok_or_empty (fst (encode demo_hasher (lit "pw") (lit "$a$") (Some 5)
                           demo_unlocked_world))
       = format_entry share (encode_iterations demo_hasher (Some 5))
                      (encode_salt (lit "$a$")) passhash.
Proof.
  refine (encode_unlocked_ignores_iterations demo_hasher (lit "pw") (lit "$a$")
            None (Some 5) demo_unlocked_world _ _ _ _ _ _).
  - reflexivity.
  - reflexivity.
  - vm_compute. reflexivity.
  - vm_compute. reflexivity.
Defined.


(** X6 on a fresh locked engine. *)
Lemma encode_writes_to_defaults_witness :
  nextavailableshare
    (defaults (snd (encode demo_hasher (lit "pw") (lit "$a$") None
                      (initial_world 0 [] : W))))
  = nextavailableshare (defaults (initial_world 0 [] : W)) + 1
  /\ defaults (snd (encode demo_hasher (lit "pw") (lit "$a$") None
                      (initial_world 0 [] : W)))
     = data (snd (encode demo_hasher (lit "pw") (lit "$a$") None
                    (initial_world 0 [] : W))).
Proof.
  refine (encode_writes_to_defaults demo_hasher (lit "pw") (lit "$a$") None
            (initial_world 0 []) _ _ _).
  - reflexivity.
  - reflexivity.
  - reflexivity.
Defined.
